(** * marshmallow_har.schema_factory: a shallow embedding

    The module under study is [src/marshmallow_har/schema_factory.py]: a
    decorator factory that reads the keyword-only parameters of a model
    class's [__init__], builds a marshmallow schema class from them and
    replaces the constructor by one that assigns the declared fields.

    Python objects are modelled as follows.
    - a [dict] with string keys is a [gmap string _];
    - a signature is the ordered list of its parameters;
    - classes live in a class table; every class carries its [__mro__] and
      the entries of its own [__dict__] that the module reads or writes;
    - schema classes created by [type(...)] live in a heap and are named
      by their index, so that two creations give two distinct classes;
    - exceptions are values of [pyerr]; a raising computation keeps the
      state it had reached. *)

From stdpp Require Import gmap strings list fin_maps.

Open Scope string_scope.
Open Scope list_scope.

(** ** Signatures ([inspect.signature]) *)

Inductive param_kind :=
  | POSITIONAL_ONLY
  | POSITIONAL_OR_KEYWORD
  | VAR_POSITIONAL
  | KEYWORD_ONLY
  | VAR_KEYWORD.

#[global] Instance param_kind_eq_dec : EqDecision param_kind.
Proof. solve_decision. Defined.

(** ** Python values that occur as defaults, keyword arguments and
    attributes.  [VFun name ret] is a zero-argument callable named [name]
    that returns [ret]. *)

#[warnings="-register-all"]
Inductive pyval :=
  | VNone
  | VBool (b : bool)
  | VInt (z : Z)
  | VStr (s : string)
  | VList (l : list pyval)
  | VDict (d : list (string * pyval))
  | VFun (name : string) (ret : pyval).

(** Truth value testing, as used by [x or y]. *)
Definition truthy (v : pyval) : bool :=
  match v with
  | VNone => false
  | VBool b => b
  | VInt z => negb (Z.eqb z 0)
  | VStr s => negb (String.eqb s "")
  | VList l => match l with [] => false | _ => true end
  | VDict d => match d with [] => false | _ => true end
  | VFun _ _ => true
  end.

(** [x or y] on values that are already evaluated. *)
Definition py_or (x y : pyval) : pyval := if truthy x then x else y.

Definition callable (v : pyval) : bool :=
  match v with VFun _ _ => true | _ => false end.

(** ** Classes *)

(** A reference to a class that can appear in an [__mro__]. *)
Inductive cref :=
  | Object
  | User (n : string).

#[global] Instance cref_eq_dec : EqDecision cref.
Proof. solve_decision. Defined.

(** Annotations.  The non-generic ones: [Parameter.empty] (no annotation),
    the marker classes of the built-in table, and any other class. *)
Inductive basety :=
  | b_empty
  | b_bool
  | b_str
  | b_int
  | b_datetime
  | b_URL
  | b_Raw
  | b_class (c : cref).

#[global] Instance basety_eq_dec : EqDecision basety.
Proof. solve_decision. Defined.

(** [One[T]], [Many[T]] and [typing.List[T]]; the argument is [None] for
    the unparameterised generic, whose [__args__] is [None]. *)
Inductive pytype :=
  | t_base (b : basety)
  | t_One (arg : option basety)
  | t_Many (arg : option basety)
  | t_List (arg : option basety).

#[global] Instance pytype_eq_dec : EqDecision pytype.
Proof. solve_decision. Defined.

(** [issubclass(t, (Many, One, List))] *)
Definition is_nested_type (t : pytype) : bool :=
  match t with t_base _ => false | _ => true end.

(** [issubclass(t, List)] *)
Definition is_List (t : pytype) : bool :=
  match t with t_List _ => true | _ => false end.

(** [issubclass(t, (Many, List))] *)
Definition is_many_type (t : pytype) : bool :=
  match t with t_Many _ | t_List _ => true | _ => false end.

(** [issubclass(t, Raw)] *)
Definition is_Raw (t : pytype) : bool :=
  match t with t_base b_Raw => true | _ => false end.

(** [t.__args__] *)
Definition type_args (t : pytype) : option basety :=
  match t with
  | t_base _ => None
  | t_One a | t_Many a | t_List a => a
  end.

(** One parameter of a signature.  [p_default = None] stands for
    [Parameter.empty]: no default was declared. *)
Record param := Param {
  p_name : string;
  p_kind : param_kind;
  p_default : option pyval;
  p_annotation : pytype;
}.

Abbreviation signature_t := (list param).

(** ** [kwsift] *)

(** The loop of [kwsift] over the reversed parameter list, with the
    accumulator [out]; [None] is the early [return kw]. *)
Fixpoint kwsift_loop {V} (kw : gmap string V) (ps : list param)
    (out : gmap string V) : option (gmap string V) :=
  match ps with
  | [] => Some out
  | p :: ps' =>
      if decide (p_kind p = VAR_KEYWORD) then None
      else if decide (p_kind p = KEYWORD_ONLY ∨ p_kind p = POSITIONAL_OR_KEYWORD) then
        match kw !! p_name p with
        | Some v => kwsift_loop kw ps' (<[p_name p := v]> out)
        | None => kwsift_loop kw ps' out
        end
      else kwsift_loop kw ps' out
  end.

Definition kwsift {V} (kw : gmap string V) (sig : signature_t) : gmap string V :=
  match kwsift_loop kw (rev sig) ∅ with
  | Some out => out
  | None => kw
  end.

(** Specification-side vocabulary for [kwsift]. *)
Definition has_var_keyword (sig : signature_t) : bool :=
  existsb (λ p, bool_decide (p_kind p = VAR_KEYWORD)) sig.

Definition accepts_keyword (sig : signature_t) (k : string) : bool :=
  existsb (λ p, bool_decide (p_name p = k) &&
                bool_decide (p_kind p = KEYWORD_ONLY ∨ p_kind p = POSITIONAL_OR_KEYWORD)) sig.

(** ** Field descriptors *)

(** [st_fieldspec = namedtuple('fieldspec', ('default', 'type', 'req',
    'allow_none'))] *)
Record fieldspec := st_fieldspec {
  fs_default : pyval;
  fs_type : pytype;
  fs_req : bool;
  fs_allow_none : bool;
}.

(** The descriptor built for one parameter [p] in [schema_factory]. *)
Definition fieldspec_of (p : param) : fieldspec :=
  {| fs_default := match p_default p with Some d => d | None => VNone end;
     fs_type := p_annotation p;
     fs_req := match p_default p with None => true | Some _ => false end;
     fs_allow_none := match p_default p with Some VNone => true | _ => false end |}.

(** The dict comprehension [init_named_kwargs].  Parameter names of a
    signature are pairwise distinct, so the dict is the list of its items
    in signature order. *)
Fixpoint init_named_kwargs (sig : signature_t) : list (string * fieldspec) :=
  match sig with
  | [] => []
  | p :: ps =>
      if decide (p_kind p = KEYWORD_ONLY)
      then (p_name p, fieldspec_of p) :: init_named_kwargs ps
      else init_named_kwargs ps
  end.

(** ** Constructors *)

(** An [__init__] callable: a hand-written one (with the class that
    defines it and its signature), or the closure [model_init] made by
    [schema_factory] for class [owner], which captures [init_named_kwargs]
    and [base_init]. *)
Inductive init :=
  | PlainInit (owner : cref) (sig : signature_t)
  | ModelInit (owner : string) (fields : list (string * fieldspec)) (base_init : init).

Definition no_annot : pytype := t_base b_empty.

(** [def model_init(model_obj, _mro_offset=1, **kwargs)] *)
Definition model_init_sig : signature_t :=
  [ Param "model_obj" POSITIONAL_OR_KEYWORD None no_annot;
    Param "_mro_offset" POSITIONAL_OR_KEYWORD (Some (VInt 1)) no_annot;
    Param "kwargs" VAR_KEYWORD None no_annot ].

(** [object.__init__(self, /, *args, **kwargs)] *)
Definition object_init : init :=
  PlainInit Object
    [ Param "self" POSITIONAL_ONLY None no_annot;
      Param "args" VAR_POSITIONAL None no_annot;
      Param "kwargs" VAR_KEYWORD None no_annot ].

Definition signature (f : init) : signature_t :=
  match f with
  | PlainInit _ sig => sig
  | ModelInit _ _ _ => model_init_sig
  end.

Definition is_model_init (f : init) : bool :=
  bool_decide ("_mro_offset" ∈ p_name <$> signature f).

(** ** The class table *)

Record model_cls := ModelCls {
  cls_mro : list cref;                               (* __mro__ *)
  cls_init : option init;                            (* __dict__['__init__'] *)
  cls_schema : option nat;                           (* __dict__['__schema__'] *)
  cls_irregular_names : option (gmap string string); (* __dict__['irregular_names'] *)
  cls_dump : bool;                                   (* dump bound to model_dump *)
  cls_load : bool;                                   (* load bound to model_load *)
}.

Definition mro_of (ct : gmap string model_cls) (c : cref) : list cref :=
  match c with
  | Object => [Object]
  | User n => match ct !! n with Some k => cls_mro k | None => [] end
  end.

Definition own_init (ct : gmap string model_cls) (c : cref) : option init :=
  match c with
  | Object => Some object_init
  | User n => ct !! n ≫= cls_init
  end.

Definition own_schema (ct : gmap string model_cls) (c : cref) : option nat :=
  match c with
  | Object => None
  | User n => ct !! n ≫= cls_schema
  end.

Definition own_irregular_names (ct : gmap string model_cls) (c : cref)
    : option (gmap string string) :=
  match c with
  | Object => None
  | User n => ct !! n ≫= cls_irregular_names
  end.

(** Attribute lookup on a class: the first class of the [__mro__] whose own
    [__dict__] has the attribute. *)
Fixpoint first_along {A} (own : cref → option A) (mro : list cref) : option A :=
  match mro with
  | [] => None
  | c :: mro' => match own c with Some a => Some a | None => first_along own mro' end
  end.

Definition getattr_init (ct : gmap string model_cls) (c : cref) : option init :=
  first_along (own_init ct) (mro_of ct c).

Definition getattr_schema (ct : gmap string model_cls) (c : cref) : option nat :=
  first_along (own_schema ct) (mro_of ct c).

Definition getattr_irregular_names (ct : gmap string model_cls) (c : cref)
    : option (gmap string string) :=
  first_along (own_irregular_names ct) (mro_of ct c).

(** ** Field codecs and schema classes *)

(** The codec constructors of the field table. *)
Inductive codec_factory :=
  | fields_Boolean
  | fields_String
  | fields_Url
  | fields_Integer
  | fields_Nested
  | fields_List
  | fields_DateTime_iso          (* partial(fields.DateTime, format='iso') *)
  | fields_Raw
  | fields_custom (name : string).

(** What [get_schema_cls] returns: an entry of the field table or the
    schema class (by heap index) attached to a model. *)
Inductive resolved :=
  | r_factory (f : codec_factory)
  | r_schema (s : nat).

(** The [default=] argument of a codec: a value or marshmallow's
    [missing]. *)
Inductive codec_default :=
  | missing
  | dflt (v : pyval).

(** A configured codec: the constructor that was called and its
    arguments. *)
Record field := Field {
  fld_factory : codec_factory;
  fld_args : list resolved;
  fld_default : codec_default;
  fld_many : bool;
  fld_required : bool;
  fld_load_from : string;
  fld_dump_to : string;
  fld_allow_none : bool;
}.

(** A class made by [type(name, bases, attrs)] with a marshmallow schema
    class among its bases.  [sc_declared] is what marshmallow's schema
    metaclass computes when the class is created: the declared fields of
    the bases, nearer bases first, overlaid with the class's own
    attributes. *)
Record schema_cls := SchemaCls {
  sc_name : string;
  sc_bases : list nat;
  sc_attrs : gmap string field;
  sc_declared : gmap string field;
  sc_model : option string;                          (* __model__ *)
}.

Record state := State {
  classes : gmap string model_cls;
  schemas : list schema_cls;
}.

(** ** Exceptions and the state-and-exception monad *)

Inductive tabkey :=
  | k_type (t : pytype)
  | k_str (s : string).

#[global] Instance tabkey_eq_dec : EqDecision tabkey.
Proof. solve_decision. Defined.

Inductive pyerr :=
  | ValueError (model_cls : basety) (sn : string)    (* raised by get_schema_cls *)
  | KeyError (k : tabkey)                            (* FIELD_TAB[key] *)
  | TypeError                                        (* __args__ is None *)
  | IndexError                                       (* __mro__[_mro_offset] *)
  | AttributeError (attr : string)
  | NameError (n : string)                           (* no such class *)
  | RecursionError.                                  (* recursion depth exhausted *)

Definition M (S A : Type) : Type := S → (pyerr + A) * S.

#[global] Instance M_ret {S} : MRet (M S) := λ A x s, (inr x, s).
#[global] Instance M_bind {S} : MBind (M S) := λ A B f m s,
  match m s with
  | (inr x, s') => f x s'
  | (inl e, s') => (inl e, s')
  end.

Definition raise {S A} (e : pyerr) : M S A := λ s, (inl e, s).
Definition get {S} : M S S := λ s, (inr s, s).
Definition modify {S} (f : S → S) : M S unit := λ s, (inr tt, f s).

(** [for x in l: body(x)] with an accumulator. *)
Fixpoint for_each {S A B} (l : list A) (body : A → B → M S B) (acc : B) : M S B :=
  match l with
  | [] => mret acc
  | x :: l' => acc' ← body x acc; for_each l' body acc'
  end.

(** ** [schema_metafactory]: configuration and the field table *)

(** The keyword arguments of [schema_metafactory].  [extended_field_map]
    is the list of the items of the caller's dict ([None] and the empty
    dict are the empty list); [schema_base_class] is a class of the schema
    heap. *)
Record config := Config {
  field_namer : string → string;
  schema_base_class : nat;
  extended_field_map : list (tabkey * codec_factory);
}.

Fixpoint assoc {K V} `{EqDecision K} (l : list (K * V)) (k : K) : option V :=
  match l with
  | [] => None
  | (k', v) :: l' => if decide (k' = k) then Some v else assoc l' k
  end.

(** The dict literal bound to [FIELD_TAB]. *)
Definition FIELD_TAB_builtin (k : tabkey) : option codec_factory :=
  match k with
  | k_type (t_base b_bool) => Some fields_Boolean
  | k_type (t_base b_str) => Some fields_String
  | k_type (t_base b_URL) => Some fields_Url
  | k_type (t_base b_int) => Some fields_Integer
  | k_type (t_base b_datetime) => Some fields_DateTime_iso
  | k_type (t_base b_Raw) => Some fields_Raw
  | k_type _ => None
  | k_str s =>
      if decide (s = "nested") then Some fields_Nested
      else if decide (s = "list") then Some fields_List
      else None
  end.

(** [FIELD_TAB] after [FIELD_TAB.update(extended_field_map or {})]. *)
Definition FIELD_TAB (cfg : config) (k : tabkey) : option codec_factory :=
  match assoc (extended_field_map cfg) k with
  | Some f => Some f
  | None => FIELD_TAB_builtin k
  end.

Definition cref_name (c : cref) : string :=
  match c with Object => "object" | User n => n end.

(** [cls.__name__] *)
Definition basety_name (b : basety) : string :=
  match b with
  | b_empty => "_empty"
  | b_bool => "bool"
  | b_str => "str"
  | b_int => "int"
  | b_datetime => "datetime"
  | b_URL => "URL"
  | b_Raw => "Raw"
  | b_class c => cref_name c
  end.

Definition get_schema_cls_name (model_cls : basety) : string :=
  String.append (basety_name model_cls) "Schema".

(** [getattr(model_cls, '__schema__')] for any class: only classes of the
    class table can carry the attribute. *)
Definition getattr_schema_of (ct : gmap string model_cls) (b : basety) : option nat :=
  match b with
  | b_class c => getattr_schema ct c
  | _ => None
  end.

Definition get_schema_cls (cfg : config) (model_cls : basety) : M state resolved :=
  match FIELD_TAB cfg (k_type (t_base model_cls)) with
  | Some f => mret (r_factory f)
  | None =>
      let sn := get_schema_cls_name model_cls in
      st ← get;
      match getattr_schema_of (classes st) model_cls with
      | Some s => mret (r_schema s)
      | None => raise (ValueError model_cls sn)
      end
  end.

(** ** [schema_factory] *)

(** The body of the loop over [init_named_kwargs.items()], up to the
    construction of [field]. *)
Definition make_field (cfg : config) (model_cls : string)
    (kwname : string) (fspec : fieldspec) : M state field :=
  let ty := fs_type fspec in
  '(key, field_args) ←
    (if is_nested_type ty then
       let key := if negb (is_List ty) then k_str "nested" else k_str "list" in
       match type_args ty with
       | None => raise TypeError
       | Some a => nested_type ← get_schema_cls cfg a; mret (key, [nested_type])
       end
     else mret (k_type ty, []));
  st ← get;
  let load_dump_to :=
    default (field_namer cfg kwname)
            (default ∅ (getattr_irregular_names (classes st) (User model_cls)) !! kwname) in
  match FIELD_TAB cfg key with
  | None => raise (KeyError key)
  | Some factory =>
      mret {| fld_factory := factory;
              fld_args := field_args;
              fld_default := if truthy (fs_default fspec)
                             then dflt (fs_default fspec) else missing;
              fld_many := is_many_type ty;
              fld_required := fs_req fspec;
              fld_load_from := load_dump_to;
              fld_dump_to := load_dump_to;
              fld_allow_none := fs_allow_none fspec |}
  end.

Definition declared_of (h : list schema_cls) (i : nat) : gmap string field :=
  match h !! i with Some s => sc_declared s | None => ∅ end.

(** [type(name, bases, attrs)]: allocates the class and returns it. *)
Definition type_new (name : string) (bases : list nat)
    (attrs : gmap string field) : M state nat :=
  λ st,
    let cls := {| sc_name := name;
                  sc_bases := bases;
                  sc_attrs := attrs;
                  sc_declared := attrs ∪ ⋃ (declared_of (schemas st) <$> bases);
                  sc_model := None |} in
    (inr (length (schemas st)),
     {| classes := classes st; schemas := schemas st ++ [cls] |}).

(** [setattr] on a model class and on a schema class. *)
Definition setattr_cls (n : string) (f : model_cls → model_cls) : M state unit :=
  modify (λ st, {| classes := alter f n (classes st); schemas := schemas st |}).

Definition setattr_schema_cls (i : nat) (f : schema_cls → schema_cls) : M state unit :=
  modify (λ st, {| classes := classes st; schemas := alter f i (schemas st) |}).

Definition set_schema (s : nat) (k : model_cls) : model_cls :=
  {| cls_mro := cls_mro k; cls_init := cls_init k; cls_schema := Some s;
     cls_irregular_names := cls_irregular_names k;
     cls_dump := cls_dump k; cls_load := cls_load k |}.

Definition set_model (n : string) (s : schema_cls) : schema_cls :=
  {| sc_name := sc_name s; sc_bases := sc_bases s; sc_attrs := sc_attrs s;
     sc_declared := sc_declared s; sc_model := Some n |}.

Definition set_dump (k : model_cls) : model_cls :=
  {| cls_mro := cls_mro k; cls_init := cls_init k; cls_schema := cls_schema k;
     cls_irregular_names := cls_irregular_names k;
     cls_dump := true; cls_load := cls_load k |}.

Definition set_load (k : model_cls) : model_cls :=
  {| cls_mro := cls_mro k; cls_init := cls_init k; cls_schema := cls_schema k;
     cls_irregular_names := cls_irregular_names k;
     cls_dump := cls_dump k; cls_load := true |}.

Definition set_init (f : init) (k : model_cls) : model_cls :=
  {| cls_mro := cls_mro k; cls_init := Some f; cls_schema := cls_schema k;
     cls_irregular_names := cls_irregular_names k;
     cls_dump := cls_dump k; cls_load := cls_load k |}.

(** The loop that fills [schema_attrs]: its body and the loop itself. *)
Definition schema_attrs_body (cfg : config) (model_cls : string)
    (item : string * fieldspec) (schema_attrs : gmap string field)
    : M state (gmap string field) :=
  fld ← make_field cfg model_cls item.1 item.2;
  mret (<[item.1 := fld]> schema_attrs).

Definition schema_attrs_loop (cfg : config) (model_cls : string)
    (fields : list (string * fieldspec)) : M state (gmap string field) :=
  for_each fields (schema_attrs_body cfg model_cls) ∅.

(** The tuple [schema_bases]. *)
Definition schema_bases (cfg : config) (ct : gmap string model_cls)
    (model_cls : string) : list nat :=
  omap (own_schema ct) (mro_of ct (User model_cls)) ++ [schema_base_class cfg].

Definition schema_factory (cfg : config) (model_cls : string) : M state unit :=
  st ← get;
  match getattr_init (classes st) (User model_cls) with
  | None => raise (AttributeError "__init__")
  | Some base_init =>
      let fields := init_named_kwargs (signature base_init) in
      schema_attrs ← schema_attrs_loop cfg model_cls fields;
      st ← get;
      schema_cls ← type_new (get_schema_cls_name (b_class (User model_cls)))
                            (schema_bases cfg (classes st) model_cls) schema_attrs;
      setattr_cls model_cls (set_schema schema_cls);;
      setattr_schema_cls schema_cls (set_model model_cls);;
      setattr_cls model_cls set_dump;;
      setattr_cls model_cls set_load;;
      setattr_cls model_cls (set_init (ModelInit model_cls fields base_init))
  end.

(** Specification-side vocabulary: model [n] has a field annotated
    [One[m]], [Many[m]] or [List[m]], and the fields declared before it get
    their codecs. *)
Definition refers_to (cfg : config) (st : state) (n m : string) : Prop :=
  ∃ base_init pre kwname fspec post,
    getattr_init (classes st) (User n) = Some base_init ∧
    init_named_kwargs (signature base_init) = pre ++ (kwname, fspec) :: post ∧
    Forall (λ kf, ∃ fld, make_field cfg n kf.1 kf.2 st = (inr fld, st)) pre ∧
    is_nested_type (fs_type fspec) = true ∧
    type_args (fs_type fspec) = Some (b_class (User m)).

(** Specification-side vocabulary: the class that a successful derivation
    of [model_cls] allocates in state [st], and the state it leaves. *)
Definition new_schema_cls (cfg : config) (model_cls : string)
    (schema_attrs : gmap string field) (st : state) : schema_cls :=
  let bases := schema_bases cfg (classes st) model_cls in
  {| sc_name := get_schema_cls_name (b_class (User model_cls));
     sc_bases := bases;
     sc_attrs := schema_attrs;
     sc_declared := schema_attrs ∪ ⋃ (declared_of (schemas st) <$> bases);
     sc_model := Some model_cls |}.

Definition derive_model (cfg : config) (name : string) (base_init : init)
    (k : model_cls) (st : state) : model_cls :=
  {| cls_mro := cls_mro k;
     cls_init := Some (ModelInit name
                         (init_named_kwargs (signature base_init)) base_init);
     cls_schema := Some (length (schemas st));
     cls_irregular_names := cls_irregular_names k;
     cls_dump := true;
     cls_load := true |}.

(** ** [model_init]: running a synthesized constructor *)

(** What a construction does, in order: a synthesized constructor is
    entered, an attribute is set, a default factory is called, a
    hand-written constructor is called. *)
Inductive event :=
  | ev_enter (owner : string) (offset : nat)
  | ev_setattr (owner : string) (name : string) (v : pyval)
  | ev_factory (name : string)
  | ev_plain (owner : cref) (offset : option nat) (kw : gmap string pyval).

(** The instance under construction and the log of events. *)
Record run_state := RunState {
  obj_attrs : gmap string pyval;
  trace : list event;
}.

Definition emit (e : event) : M run_state unit :=
  modify (λ s, {| obj_attrs := obj_attrs s; trace := trace s ++ [e] |}).

Definition setattr_obj (owner name : string) (v : pyval) : M run_state unit :=
  modify (λ s, {| obj_attrs := <[name := v]> (obj_attrs s);
                  trace := trace s ++ [ev_setattr owner name v] |}).

(** [f()] for a default [f]. *)
Definition call_default (f : pyval) : M run_state pyval :=
  match f with
  | VFun name ret => emit (ev_factory name);; mret ret
  | _ => raise TypeError
  end.

(** The body of the loop that sets the attributes. *)
Definition assign_field (owner : string) (kwargs : gmap string pyval)
    (kwname : string) (fspec : fieldspec) : M run_state unit :=
  let attr := default (fs_default fspec) (kwargs !! kwname) in
  let attr := if is_many_type (fs_type fspec) then py_or attr (VList []) else attr in
  attr ← (if is_Raw (fs_type fspec) then mret (py_or attr (VDict []))
          else if callable (fs_default fspec) then
            (if truthy attr then mret attr else call_default (fs_default fspec))
          else mret attr);
  setattr_obj owner kwname attr.

Definition assign_fields (owner : string) (kwargs : gmap string pyval)
    (fields : list (string * fieldspec)) : M run_state unit :=
  for_each fields (λ '(kwname, fspec) _, assign_field owner kwargs kwname fspec) tt.

(** Calling an [__init__] on an instance of class [cls].  A hand-written
    constructor is a stub: the call is logged with the keywords it
    receives.  [offset] is the [_mro_offset] argument, when given.  The
    recursion depth is bounded by [fuel]. *)
Fixpoint call_init (fuel : nat) (ct : gmap string model_cls) (cls : cref)
    (f : init) (offset : option nat) (kwargs : gmap string pyval)
    {struct fuel} : M run_state unit :=
  match f with
  | PlainInit owner _ => emit (ev_plain owner offset kwargs)
  | ModelInit owner fields base_init =>
      match fuel with
      | 0 => raise RecursionError
      | S fuel' =>
          let _mro_offset := default 1 offset in
          emit (ev_enter owner _mro_offset);;
          match mro_of ct cls !! _mro_offset with
          | None => raise IndexError
          | Some next_in_line =>
              match getattr_init ct next_in_line with
              | None => raise (AttributeError "__init__")
              | Some next_init =>
                  (if is_model_init next_init then
                     call_init fuel' ct cls next_init (Some (S _mro_offset))
                               (kwsift kwargs (signature next_init))
                   else if bool_decide (next_in_line ≠ Object) then
                     call_init fuel' ct cls next_init None
                               (kwsift kwargs (signature next_init))
                   else mret tt);;
                  assign_fields owner kwargs fields;;
                  call_init fuel' ct cls base_init None
                            (kwsift kwargs (signature base_init))
              end
          end
      end
  end.

(** Instantiating class [cls] with keywords [kwargs]: a fresh instance,
    then [cls.__init__]. *)
Definition construct (fuel : nat) (ct : gmap string model_cls) (cls : string)
    (kwargs : gmap string pyval) : (pyerr + unit) * run_state :=
  match getattr_init ct (User cls) with
  | None => (inl (AttributeError "__init__"), RunState ∅ [])
  | Some f => call_init fuel ct (User cls) f None kwargs (RunState ∅ [])
  end.

(** ** Reading a trace *)



Definition is_factory (name : string) (e : event) : bool :=
  match e with
  | ev_factory f => bool_decide (f = name)
  | _ => false
  end.

Fixpoint count_events (p : event → bool) (tr : list event) : nat :=
  match tr with
  | [] => 0
  | e :: tr' => (if p e then 1 else 0) + count_events p tr'
  end.


(** The events of the attribute loop of class [owner], run on its own. *)
Definition assign_events (owner : string) (kwargs : gmap string pyval)
    (fields : list (string * fieldspec)) : list event :=
  trace (assign_fields owner kwargs fields (RunState ∅ [])).2.






(** ** Concrete models *)

(** Small class hierarchies on which the properties below are exercised. *)
Module Examples.

Definition self : param := Param "self" POSITIONAL_OR_KEYWORD None no_annot.

Definition kwonly (name : string) (d : option pyval) (ty : pytype) : param :=
  Param name KEYWORD_ONLY d ty.

(** A hand-written [__init__(self, *, ...)] defined on class [owner]. *)
Definition stub (owner : string) (ps : list param) : init :=
  PlainInit (User owner) (self :: ps).

(** A class as the [class] statement leaves it. *)
Definition cls (bases : list string) (name : string) (f : option init) : model_cls :=
  ModelCls (User name :: (User <$> bases) ++ [Object]) f None None false false.

(** [schema_metafactory()] with its defaults; [Schema] is class 0 of the
    heap. *)
Definition cfg : config := Config (λ x, x) 0 [].
Definition Schema : schema_cls := SchemaCls "Schema" [] ∅ ∅ None.

Definition model (t : string) : pytype := t_base (b_class (User t)).
Definition One (t : string) : pytype := t_One (Some (b_class (User t))).
Definition Many (t : string) : pytype := t_Many (Some (b_class (User t))).

(** [[
    class Person:
        def __init__(self, *, name: str, age: int = 0, nick: str = 'x'): pass
    class Employee(Person):
        def __init__(self, *, salary: int = 1, nick: str = None): pass
    ]] *)
Definition Person : model_cls :=
  cls [] "Person"
    (Some (stub "Person" [ kwonly "name" None (t_base b_str);
                           kwonly "age" (Some (VInt 0)) (t_base b_int);
                           kwonly "nick" (Some (VStr "x")) (t_base b_str) ])).
Definition Employee : model_cls :=
  cls ["Person"] "Employee"
    (Some (stub "Employee" [ kwonly "salary" (Some (VInt 1)) (t_base b_int);
                             kwonly "nick" (Some VNone) (t_base b_str) ])).

(** [[
    class Order:
        def __init__(self, *, customer: One[Customer] = None): pass
    class Customer:
        def __init__(self, *, orders: Many[Order] = None): pass
    class Basket:
        def __init__(self, *, item: One[Item] = None): pass
    class Item:
        def __init__(self, *, sku: str = None): pass
    ]] *)
Definition Order : model_cls :=
  cls [] "Order" (Some (stub "Order" [ kwonly "customer" (Some VNone) (One "Customer") ])).
Definition Customer : model_cls :=
  cls [] "Customer" (Some (stub "Customer" [ kwonly "orders" (Some VNone) (Many "Order") ])).
Definition Basket : model_cls :=
  cls [] "Basket" (Some (stub "Basket" [ kwonly "item" (Some VNone) (One "Item") ])).
Definition Item : model_cls :=
  cls [] "Item" (Some (stub "Item" [ kwonly "sku" (Some VNone) (t_base b_str) ])).

(** [[
    class Manager(Employee):
        def __init__(self, *, reports: Many[Employee] = None, notes: Raw = None): pass
    class Contractor(Person):              # never decorated
        def __init__(self, *, agency: str = None): pass
    class Temp(Contractor):
        def __init__(self, *, weeks: int = 0): pass
    class Intern(Person):                  # no __init__ of its own
        pass
    def make_title(): return 'untitled'
    class Doc:
        def __init__(self, *, title: str = make_title, meta: Raw = None,
                     parts: List[str] = None): pass
    ]] *)
Definition Manager : model_cls :=
  cls ["Employee"; "Person"] "Manager"
    (Some (stub "Manager" [ kwonly "reports" (Some VNone) (Many "Employee");
                            kwonly "notes" (Some VNone) (t_base b_Raw) ])).
Definition Contractor : model_cls :=
  cls ["Person"] "Contractor"
    (Some (stub "Contractor" [ kwonly "agency" (Some VNone) (t_base b_str) ])).
Definition Temp : model_cls :=
  cls ["Contractor"; "Person"] "Temp"
    (Some (stub "Temp" [ kwonly "weeks" (Some (VInt 0)) (t_base b_int) ])).
Definition Intern : model_cls := cls ["Person"] "Intern" None.
Definition make_title : pyval := VFun "make_title" (VStr "untitled").
Definition Doc : model_cls :=
  cls [] "Doc"
    (Some (stub "Doc" [ kwonly "title" (Some make_title) (t_base b_str);
                        kwonly "meta" (Some VNone) (t_base b_Raw);
                        kwonly "parts" (Some VNone) (t_List (Some b_str)) ])).

(** The module after the class statements, before any derivation. *)
Definition st0 : state :=
  {| classes := {[ "Person" := Person; "Employee" := Employee;
                   "Order" := Order; "Customer" := Customer;
                   "Basket" := Basket; "Item" := Item;
                   "Manager" := Manager; "Contractor" := Contractor;
                   "Temp" := Temp; "Intern" := Intern; "Doc" := Doc ]};
     schemas := [Schema] |}.

(** [Person] decorated, then [Employee] decorated. *)
Definition st_Person : state := (schema_factory cfg "Person" st0).2.





(** [Doc] decorated. *)
Definition st_Doc : state := (schema_factory cfg "Doc" st0).2.

End Examples.

(** ** [model_dump] and [model_load] *)

(** What the two conveniences ask of marshmallow: the schema class they
    instantiate, with which positional arguments, which [strict] and which
    other keywords; the [dump] or [load] of that instance is marshmallow's
    own. *)
Record schema_call := SchemaCall {
  call_schema : nat;
  call_args : list pyval;
  call_strict : pyval;
  call_kwargs : gmap string pyval;
}.

(** [strict = kwargs.pop('strict', True)]: the value and what is left of
    [kwargs]. *)
Definition pop_strict (kwargs : gmap string pyval) : pyval * gmap string pyval :=
  (default (VBool true) (kwargs !! "strict"), delete "strict" kwargs).

Definition own_dump (ct : gmap string model_cls) (c : cref) : option unit :=
  match c with
  | Object => None
  | User n => k ← ct !! n; if cls_dump k then Some tt else None
  end.

Definition own_load (ct : gmap string model_cls) (c : cref) : option unit :=
  match c with
  | Object => None
  | User n => k ← ct !! n; if cls_load k then Some tt else None
  end.

(** [obj.dump] called with positional arguments [args] and keywords
    [kwargs] on an instance [obj] of class [cls]: the method is looked up
    on the class, then [self.__schema__] is. *)
Definition model_dump (ct : gmap string model_cls) (cls : cref)
    (args : list pyval) (kwargs : gmap string pyval) : pyerr + schema_call :=
  match first_along (own_dump ct) (mro_of ct cls) with
  | None => inl (AttributeError "dump")
  | Some _ =>
      let '(strict, kwargs) := pop_strict kwargs in
      match getattr_schema ct cls with
      | None => inl (AttributeError "__schema__")
      | Some schema => inr (SchemaCall schema args strict kwargs)
      end
  end.

(** [cls.load] called with [data], positional arguments [args] and
    keywords [kwargs]: a class method, so [cls] is the class it is called
    on. *)
Definition model_load (ct : gmap string model_cls) (cls : cref)
    (args : list pyval) (kwargs : gmap string pyval) : pyerr + schema_call :=
  match first_along (own_load ct) (mro_of ct cls) with
  | None => inl (AttributeError "load")
  | Some _ =>
      let '(strict, kwargs) := pop_strict kwargs in
      match getattr_schema ct cls with
      | None => inl (AttributeError "__schema__")
      | Some schema => inr (SchemaCall schema args strict kwargs)
      end
  end.

(** Specification-side vocabulary: the annotation of a descriptor can be
    given a codec in state [st]. *)
Definition field_resolves (cfg : config) (st : state) (fspec : fieldspec) : Prop :=
  if is_nested_type (fs_type fspec) then
    ∃ a, type_args (fs_type fspec) = Some a ∧
         (is_Some (FIELD_TAB cfg (k_type (t_base a))) ∨
          is_Some (getattr_schema_of (classes st) a))
  else is_Some (FIELD_TAB cfg (k_type (fs_type fspec))).




(** ** More concrete models *)

Module MoreExamples.

(** [[
    class Account:
        irregular_names = {'id_': 'id'}
        def __init__(self, *, id_: int = None, owner_name: str = None): pass
    class Savings(Account):
        irregular_names = {'rate': 'interestRate'}
        def __init__(self, *, rate: int = None, id_: int = None): pass
    class Broken:
        def __init__(self, *, other: One = None): pass
    class Ledger:
        def __init__(self, *, accounts: Many[Account] = None): pass
    ]] *)
Definition Account : model_cls :=
  ModelCls [User "Account"; Object]
    (Some (Examples.stub "Account"
             [ Examples.kwonly "id_" (Some VNone) (t_base b_int);
               Examples.kwonly "owner_name" (Some VNone) (t_base b_str) ]))
    None (Some {[ "id_" := "id" ]}) false false.

Definition Savings : model_cls :=
  ModelCls [User "Savings"; User "Account"; Object]
    (Some (Examples.stub "Savings"
             [ Examples.kwonly "rate" (Some VNone) (t_base b_int);
               Examples.kwonly "id_" (Some VNone) (t_base b_int) ]))
    None (Some {[ "rate" := "interestRate" ]}) false false.

Definition Broken : model_cls :=
  Examples.cls [] "Broken"
    (Some (Examples.stub "Broken" [ Examples.kwonly "other" (Some VNone) (t_One None) ])).

Definition Ledger : model_cls :=
  Examples.cls [] "Ledger"
    (Some (Examples.stub "Ledger"
             [ Examples.kwonly "accounts" (Some VNone) (Examples.Many "Account") ])).

(** A field namer that prefixes the name, and a caller's codec for [int]. *)
Definition cfg : config :=
  Config (String.append "x_") 0 [(k_type (t_base b_int), fields_custom "BigInt")].

Definition st0 : state :=
  {| classes := {[ "Account" := Account; "Savings" := Savings;
                   "Broken" := Broken; "Ledger" := Ledger ]};
     schemas := [Examples.Schema] |}.

Definition st_Account : state := (schema_factory cfg "Account" st0).2.
Definition st_Savings : state := (schema_factory cfg "Savings" st_Account).2.
Definition st_Ledger : state := (schema_factory cfg "Ledger" st_Account).2.

(** [Person] decorated twice, then its subclass [Employee] decorated. *)
Definition st_Person_twice : state :=
  (schema_factory Examples.cfg "Person" Examples.st_Person).2.
Definition st_Employee_after : state :=
  (schema_factory Examples.cfg "Employee" st_Person_twice).2.

End MoreExamples.

(** * Properties *)

(** ** [kwsift] *)

Section kwsift_facts.
Context {V : Type}.
Implicit Types (kw out : gmap string V) (ps sig : list param).

Lemma has_var_keyword_true sig :
  has_var_keyword sig = true ↔ ∃ p, p ∈ sig ∧ p_kind p = VAR_KEYWORD.
Proof.
  unfold has_var_keyword. rewrite existsb_exists. split.
  - intros (p & Hin & Hp). exists p. rewrite list_elem_of_In.
    by apply bool_decide_eq_true in Hp.
  - intros (p & Hin & Hp). exists p. rewrite <- list_elem_of_In.
    by rewrite bool_decide_eq_true.
Qed.

Lemma accepts_keyword_true sig k :
  accepts_keyword sig k = true ↔
  ∃ p, p ∈ sig ∧ p_name p = k ∧
       (p_kind p = KEYWORD_ONLY ∨ p_kind p = POSITIONAL_OR_KEYWORD).
Proof.
  unfold accepts_keyword. rewrite existsb_exists. split.
  - intros (p & Hin & Hp). exists p. rewrite list_elem_of_In.
    apply andb_true_iff in Hp as [H1 H2].
    apply bool_decide_eq_true in H1, H2. done.
  - intros (p & Hin & Hn & Hk). exists p. rewrite <- list_elem_of_In.
    split; [done|]. apply andb_true_iff. by rewrite !bool_decide_eq_true.
Qed.

Lemma has_var_keyword_rev sig : has_var_keyword (rev sig) = has_var_keyword sig.
Proof.
  apply eq_true_iff_eq. unfold has_var_keyword. rewrite !existsb_exists.
  split; intros (p & Hin & Hp); exists p; split; try done;
    by apply in_rev in Hin.
Qed.

Lemma accepts_keyword_rev sig k :
  accepts_keyword (rev sig) k = accepts_keyword sig k.
Proof.
  apply eq_true_iff_eq. unfold accepts_keyword. rewrite !existsb_exists.
  split; intros (p & Hin & Hp); exists p; split; try done;
    by apply in_rev in Hin.
Qed.

(** The early return: a variadic keyword parameter anywhere in the list
    ends the loop. *)
Lemma kwsift_loop_var_keyword kw ps out :
  has_var_keyword ps = true → kwsift_loop kw ps out = None.
Proof.
  revert out. induction ps as [|p ps IH]; intros out; simpl; [done|].
  destruct (decide (p_kind p = VAR_KEYWORD)) as [|Hk]; [done|].
  rewrite bool_decide_eq_false_2 by done. simpl. intros Hps.
  destruct (decide _); [destruct (kw !! p_name p)|]; by apply IH.
Qed.

(** Without one, the loop returns the accumulator overwritten with the
    accepted entries of [kw]. *)
Lemma kwsift_loop_no_var_keyword kw ps out :
  has_var_keyword ps = false →
  ∃ out', kwsift_loop kw ps out = Some out' ∧
    ∀ k, out' !! k =
         match (if accepts_keyword ps k then kw !! k else None) with
         | Some v => Some v
         | None => out !! k
         end.
Proof.
  revert out. induction ps as [|p ps IH]; intros out; simpl.
  { intros _. exists out. split; [done|]. intros k. done. }
  destruct (decide (p_kind p = VAR_KEYWORD)) as [Hk|Hk].
  { by rewrite bool_decide_eq_true_2. }
  rewrite bool_decide_eq_false_2 by done. simpl. intros Hps.
  destruct (decide (p_kind p = KEYWORD_ONLY ∨ p_kind p = POSITIONAL_OR_KEYWORD))
    as [Hacc|Hacc].
  - destruct (kw !! p_name p) as [v|] eqn:Hv.
    + destruct (IH (<[p_name p:=v]> out) Hps) as (out' & -> & Hout').
      exists out'. split; [done|]. intros k. rewrite Hout'.
      destruct (decide (p_name p = k)) as [<-|Hne].
      * rewrite (bool_decide_eq_true_2 _ Hacc).
        rewrite bool_decide_eq_true_2 by done. simpl. rewrite Hv.
        destruct (accepts_keyword ps (p_name p)); [done|].
        by rewrite lookup_insert_eq.
      * rewrite bool_decide_eq_false_2 by done. simpl.
        by rewrite lookup_insert_ne.
    + destruct (IH out Hps) as (out' & -> & Hout').
      exists out'. split; [done|]. intros k. rewrite Hout'.
      destruct (decide (p_name p = k)) as [<-|Hne].
      * rewrite (bool_decide_eq_true_2 _ Hacc).
        rewrite bool_decide_eq_true_2 by done. simpl. rewrite Hv.
        by destruct (accepts_keyword ps (p_name p)); rewrite ?Hv.
      * by rewrite bool_decide_eq_false_2.
  - destruct (IH out Hps) as (out' & -> & Hout').
    exists out'. split; [done|]. intros k. rewrite Hout'.
    by rewrite (bool_decide_eq_false_2 _ Hacc), andb_false_r.
Qed.
End kwsift_facts.

(** Claim C7.  For every mapping [kw] and every target signature,
    [kwsift] returns [kw] itself when the signature has a variadic keyword
    parameter, and otherwise exactly the entries of [kw] whose key names a
    keyword-only or positional-or-keyword parameter, values unchanged. *)
Theorem kwsift_spec {V} (kw : gmap string V) (sig : signature_t) :
  kwsift kw sig =
  if has_var_keyword sig then kw
  else filter (λ kv, accepts_keyword sig kv.1 = true) kw.
Proof.
  unfold kwsift. destruct (has_var_keyword sig) eqn:Hvk.
  - by rewrite kwsift_loop_var_keyword by by rewrite has_var_keyword_rev.
  - destruct (kwsift_loop_no_var_keyword kw (rev sig) ∅) as (out & -> & Hout).
    { by rewrite has_var_keyword_rev. }
    apply map_eq. intros k. rewrite Hout, accepts_keyword_rev, lookup_empty.
    destruct (accepts_keyword sig k) eqn:Hacc.
    + destruct (kw !! k) as [v|] eqn:Hv.
      * symmetry. by apply map_lookup_filter_Some.
      * symmetry. apply map_lookup_filter_None. left. done.
    + symmetry. apply map_lookup_filter_None. right. intros v _. simpl.
      by rewrite Hacc.
Qed.

(** ** The descriptor extractor *)

Lemma init_named_kwargs_filter sig :
  init_named_kwargs sig =
  (λ p, (p_name p, fieldspec_of p)) <$> filter (λ p, p_kind p = KEYWORD_ONLY) sig.
Proof.
  induction sig as [|p sig IH]; [done|].
  rewrite filter_cons. cbn [init_named_kwargs].
  destruct (decide _); [rewrite fmap_cons|]; by rewrite IH.
Qed.

(** Claim C4.  The descriptors extracted from a constructor signature are
    exactly those of its keyword-only parameters: [req] holds iff no
    default was declared, [allow_none] holds iff the declared default is
    [None], and the stored default is the declared one, or [None] when
    there is none.  A parameter of another kind gives no descriptor. *)
Theorem init_named_kwargs_spec (sig : signature_t) (name : string) (fs : fieldspec) :
  (name, fs) ∈ init_named_kwargs sig ↔
  ∃ p, p ∈ sig ∧ p_kind p = KEYWORD_ONLY ∧ p_name p = name ∧
       fs_type fs = p_annotation p ∧
       (fs_req fs = true ↔ p_default p = None) ∧
       (fs_allow_none fs = true ↔ p_default p = Some VNone) ∧
       fs_default fs = default VNone (p_default p).
Proof.
  rewrite init_named_kwargs_filter, list_elem_of_fmap. split.
  - intros (p & Heq & Hin). apply list_elem_of_filter in Hin as [Hk Hin].
    exists p. inversion Heq; subst. simpl.
    split_and!; try done; try by destruct (p_default p) as [[]|].
    all: split; [by destruct (p_default p) as [[]|] | by intros ->].
  - intros (p & Hin & Hk & Hn & Hty & Hreq & Hnone & Hdef).
    exists p. split; [|by apply list_elem_of_filter].
    f_equal; [done|]. destruct fs as [d t r a]; simpl in *.
    unfold fieldspec_of. rewrite <- Hty, Hdef. f_equal.
    + destruct (p_default p); simpl; destruct r; try done.
      * by destruct Hreq as [Hreq _]; specialize (Hreq eq_refl).
      * by destruct Hreq as [_ Hreq]; specialize (Hreq eq_refl).
    + destruct a.
      * destruct Hnone as [Hnone _]. by rewrite (Hnone eq_refl).
      * destruct (p_default p) as [[]|]; try done.
        by destruct Hnone as [_ Hnone]; specialize (Hnone eq_refl).
Qed.

(** ** Schema derivation: what the loop over the fields does *)

Ltac munfold :=
  unfold mbind, M_bind, mret, M_ret, raise, get, modify in *.

(** Reading the class table does not change the state. *)
Lemma get_schema_cls_state cfg b st : (get_schema_cls cfg b st).2 = st.
Proof.
  unfold get_schema_cls. destruct (FIELD_TAB cfg _); [done|].
  munfold. by destruct (getattr_schema_of _ _).
Qed.

Lemma make_field_state cfg n kwname fspec st :
  (make_field cfg n kwname fspec st).2 = st.
Proof.
  unfold make_field. munfold.
  destruct (is_nested_type (fs_type fspec)).
  - destruct (type_args (fs_type fspec)) as [a|]; [|done].
    pose proof (get_schema_cls_state cfg a st) as Hst.
    destruct (get_schema_cls cfg a st) as [[e|r] st1]; simpl in *; subst; [done|].
    by destruct (FIELD_TAB cfg _).
  - by destruct (FIELD_TAB cfg (k_type (fs_type fspec))).
Qed.

Lemma for_each_cons {S A B} (x : A) (l : list A) (body : A → B → M S B) acc s :
  for_each (x :: l) body acc s =
  match body x acc s with
  | (inr acc', s') => for_each l body acc' s'
  | (inl e, s') => (inl e, s')
  end.
Proof. done. Qed.

Lemma schema_attrs_body_eq cfg n k f acc st :
  schema_attrs_body cfg n (k, f) acc st =
  match make_field cfg n k f st with
  | (inr fld, st') => (inr (<[k := fld]> acc), st')
  | (inl e, st') => (inl e, st')
  end.
Proof. done. Qed.

Section attrs_loop.
Variables (cfg : config) (model_cls : string).

Local Abbreviation body := (schema_attrs_body cfg model_cls).

Lemma attrs_loop_state fields acc st : (for_each fields body acc st).2 = st.
Proof.
  revert acc. induction fields as [|[k f] fields IH]; intros acc; [done|].
  rewrite for_each_cons, schema_attrs_body_eq.
  pose proof (make_field_state cfg model_cls k f st) as Hst.
  destruct (make_field cfg model_cls k f st) as [[e|fld] st1];
    simpl in *; subst; [done|]. apply IH.
Qed.

(** A successful loop: every entry of the result was there before or
    was made by [make_field] from a descriptor of that name, and every
    descriptor has an entry. *)
Lemma attrs_loop_inr fields acc st attrs st' :
  for_each fields body acc st = (inr attrs, st') →
  (∀ k fld, attrs !! k = Some fld →
     acc !! k = Some fld ∨
     ∃ fspec, (k, fspec) ∈ fields ∧
              make_field cfg model_cls k fspec st = (inr fld, st)) ∧
  (∀ k, is_Some (attrs !! k) ↔ is_Some (acc !! k) ∨ k ∈ fields.*1).
Proof.
  revert acc. induction fields as [|[k f] fields IH]; intros acc.
  { simpl. munfold. intros [= <- <-]. split; [by left|].
    intros k. simpl. rewrite elem_of_nil. tauto. }
  rewrite for_each_cons, schema_attrs_body_eq.
  pose proof (make_field_state cfg model_cls k f st) as Hst.
  destruct (make_field cfg model_cls k f st) as [[e|fld] st1] eqn:Hmk;
    simpl in *; subst; [done|].
  intros Hloop. destruct (IH _ Hloop) as [IH1 IH2]. split.
  - intros k' fld' Hk'. destruct (IH1 _ _ Hk') as [Hacc|(fs & Hin & Hf)].
    + destruct (decide (k = k')) as [->|Hne].
      * rewrite lookup_insert_eq in Hacc. injection Hacc as <-.
        right. exists f. split; [left|done].
      * rewrite lookup_insert_ne in Hacc by done. by left.
    + right. exists fs. split; [by right|done].
  - intros k'. rewrite IH2, elem_of_cons.
    destruct (decide (k = k')) as [->|Hne].
    + rewrite lookup_insert_eq. split; intros _; [by right; left|by left].
    + rewrite lookup_insert_ne by done. intuition congruence.
Qed.

(** A failing loop: the exception is that of the first descriptor whose
    field cannot be made. *)
Lemma attrs_loop_inl pre k f post acc st e :
  Forall (λ kf, ∃ fld, make_field cfg model_cls kf.1 kf.2 st = (inr fld, st)) pre →
  make_field cfg model_cls k f st = (inl e, st) →
  for_each (pre ++ (k, f) :: post) body acc st = (inl e, st).
Proof.
  intros Hpre Hf. revert acc.
  induction Hpre as [|[k0 f0] pre [fld Hfld] _ IH]; intros acc; simpl app;
    rewrite for_each_cons, schema_attrs_body_eq.
  - by rewrite Hf.
  - simpl in Hfld. rewrite Hfld. apply IH.
Qed.

End attrs_loop.

(** ** Schema derivation: the two outcomes *)

Lemma getattr_init_in_table ct n f :
  getattr_init ct (User n) = Some f → is_Some (ct !! n).
Proof.
  unfold getattr_init, mro_of. destruct (ct !! n); [by eexists|done].
Qed.

Lemma alter_snoc {A} (f : A → A) (l : list A) (x : A) :
  alter f (length l) (l ++ [x]) = l ++ [f x].
Proof. induction l as [|y l IH]; [done|]. simpl. by f_equal. Qed.

(** [schema_factory] either raises from the loop over the fields, leaving
    the state as it was, or attaches a new schema class, the two
    conveniences and the new constructor to the model. *)
Lemma schema_factory_unfold cfg n st :
  schema_factory cfg n st =
  match getattr_init (classes st) (User n) with
  | None => (inl (AttributeError "__init__"), st)
  | Some base_init =>
      match schema_attrs_loop cfg n (init_named_kwargs (signature base_init)) st with
      | (inl e, _) => (inl e, st)
      | (inr attrs, _) =>
          (inr tt,
           {| classes := alter (λ k, derive_model cfg n base_init k st) n (classes st);
              schemas := schemas st ++ [new_schema_cls cfg n attrs st] |})
      end
  end.
Proof.
  unfold schema_factory. munfold.
  destruct (getattr_init (classes st) (User n)) as [base_init|] eqn:Hinit; [|done].
  pose proof (attrs_loop_state cfg n (init_named_kwargs (signature base_init)) ∅ st) as Hst.
  unfold schema_attrs_loop.
  destruct (for_each _ _ ∅ st) as [[e|attrs] st1]; simpl in Hst; subst st1; [done|].
  unfold type_new, setattr_cls, setattr_schema_cls. munfold. simpl.
  f_equal. f_equal.
  - rewrite !alter_alter_eq. apply alter_ext. by intros [] _.
  - by rewrite alter_snoc.
Qed.

Lemma schema_factory_inr cfg n st st' :
  schema_factory cfg n st = (inr tt, st') →
  ∃ base_init attrs k,
    getattr_init (classes st) (User n) = Some base_init ∧
    classes st !! n = Some k ∧
    schema_attrs_loop cfg n (init_named_kwargs (signature base_init)) st
      = (inr attrs, st) ∧
    st' = {| classes := <[n := derive_model cfg n base_init k st]> (classes st);
             schemas := schemas st ++ [new_schema_cls cfg n attrs st] |}.
Proof.
  rewrite schema_factory_unfold.
  destruct (getattr_init (classes st) (User n)) as [base_init|] eqn:Hinit; [|done].
  destruct (getattr_init_in_table _ _ _ Hinit) as [k Hk].
  pose proof (attrs_loop_state cfg n (init_named_kwargs (signature base_init)) ∅ st) as Hst.
  fold (schema_attrs_loop cfg n (init_named_kwargs (signature base_init))) in Hst.
  destruct (schema_attrs_loop _ _ _ st) as [[e|attrs] st1] eqn:Hloop;
    simpl in Hst; subst st1; [done|].
  intros [= <-]. exists base_init, attrs, k. split_and!; try done.
  assert (alter (λ k, derive_model cfg n base_init k st) n (classes st)
          = <[n := derive_model cfg n base_init k st]> (classes st)) as ->; [|done].
  apply map_eq. intros i. destruct (decide (i = n)) as [->|Hne].
  - by rewrite lookup_alter_eq, lookup_insert_eq, Hk.
  - by rewrite lookup_alter_ne, lookup_insert_ne.
Qed.

(** The configuration of a codec that was made. *)
Lemma make_field_inr cfg n kwname fspec st fld st' :
  make_field cfg n kwname fspec st = (inr fld, st') →
  fld_default fld = (if truthy (fs_default fspec)
                     then dflt (fs_default fspec) else missing) ∧
  fld_required fld = fs_req fspec ∧
  fld_allow_none fld = fs_allow_none fspec ∧
  fld_many fld = is_many_type (fs_type fspec) ∧
  fld_load_from fld = fld_dump_to fld.
Proof.
  unfold make_field. munfold.
  destruct (is_nested_type (fs_type fspec)).
  - destruct (type_args (fs_type fspec)) as [a|]; [|done].
    destruct (get_schema_cls cfg a st) as [[e|r] st1]; [done|]. simpl.
    destruct (FIELD_TAB cfg _); [|done]. by intros [= <- <-].
  - destruct (FIELD_TAB cfg _); [|done]. by intros [= <- <-].
Qed.

Lemma get_schema_cls_missing cfg b st :
  FIELD_TAB cfg (k_type (t_base b)) = None →
  getattr_schema_of (classes st) b = None →
  get_schema_cls cfg b st = (inl (ValueError b (get_schema_cls_name b)), st).
Proof. intros Htab Hattr. unfold get_schema_cls. munfold. by rewrite Htab, Hattr. Qed.

Lemma make_field_nested_missing cfg n kwname fspec st a :
  is_nested_type (fs_type fspec) = true →
  type_args (fs_type fspec) = Some a →
  FIELD_TAB cfg (k_type (t_base a)) = None →
  getattr_schema_of (classes st) a = None →
  make_field cfg n kwname fspec st = (inl (ValueError a (get_schema_cls_name a)), st).
Proof.
  intros Hn Ha Htab Hattr. unfold make_field. munfold.
  by rewrite Hn, Ha, get_schema_cls_missing.
Qed.




(** ** Derivation errors *)

(** Claim C9.  A derivation that raises leaves the whole state as it was:
    the model has no new schema attribute, constructor, [dump] or [load],
    and no schema class was created. *)
Theorem failed_derivation_changes_nothing cfg n st e st' :
  schema_factory cfg n st = (inl e, st') → st' = st.
Proof.
  rewrite schema_factory_unfold.
  destruct (getattr_init (classes st) (User n)) as [base_init|]; [|by intros [= _ <-]].
  destruct (schema_attrs_loop _ _ _ st) as [[e'|attrs] st1]; [|done].
  by intros [= _ <-].
Qed.

Lemma failed_derivation_changes_nothing_witness :
  (schema_factory Examples.cfg "Order" Examples.st0).2 = Examples.st0.
Proof.
  apply (failed_derivation_changes_nothing Examples.cfg "Order" Examples.st0
           (ValueError (b_class (User "Customer")) "CustomerSchema")).
  vm_compute. reflexivity.
Defined.



(** ** Successful derivation: the schema class that is attached *)

(** Claim C10.  After a successful derivation the new schema class has one
    codec per keyword-only parameter of the original constructor, and the
    [default] each codec was given is the declared default only when that
    default is truthy: a falsy default (0, the empty string, [False], an
    empty collection, [None]) is replaced by [missing]. *)
Theorem falsy_default_is_missing cfg n st st' :
  schema_factory cfg n st = (inr tt, st') →
  ∃ base_init sc,
    getattr_init (classes st) (User n) = Some base_init ∧
    own_schema (classes st') (User n) = Some (length (schemas st)) ∧
    schemas st' !! length (schemas st) = Some sc ∧
    (∀ kwname, kwname ∈ (init_named_kwargs (signature base_init)).*1 →
               is_Some (sc_attrs sc !! kwname)) ∧
    (∀ kwname fld, sc_attrs sc !! kwname = Some fld →
       ∃ fspec, (kwname, fspec) ∈ init_named_kwargs (signature base_init) ∧
         fld_default fld =
           if truthy (fs_default fspec) then dflt (fs_default fspec) else missing).
Proof.
  intros Hok.
  destruct (schema_factory_inr _ _ _ _ Hok) as (base_init & attrs & k & Hinit & Hk & Hloop & ->).
  exists base_init, (new_schema_cls cfg n attrs st). simpl.
  destruct (attrs_loop_inr cfg n _ _ _ _ _ Hloop) as [Hfrom Hdom].
  split_and!; try done.
  - by rewrite lookup_insert_eq.
  - by rewrite lookup_app_r, Nat.sub_diag by lia.
  - intros kwname Hin. apply Hdom. by right.
  - intros kwname fld Hfld. destruct (Hfrom _ _ Hfld) as [Hemp|(fspec & Hin & Hmk)].
    { by rewrite lookup_empty in Hemp. }
    exists fspec. split; [done|]. by apply make_field_inr in Hmk as [? _].
Qed.

Lemma falsy_default_is_missing_witness :
  ∃ sc, schemas Examples.st_Person !! 1 = Some sc ∧
        fld_default <$> sc_attrs sc !! "age" = Some missing ∧
        fld_default <$> sc_attrs sc !! "nick" = Some (dflt (VStr "x")).
Proof.
  destruct (falsy_default_is_missing Examples.cfg "Person" Examples.st0 Examples.st_Person)
    as (base_init & sc & _ & _ & Hsc & _ & _).
  - vm_compute. reflexivity.
  - exists sc. split; [exact Hsc|].
    vm_compute in Hsc. injection Hsc as <-. vm_compute. split; reflexivity.
Defined.



(** ** Related models and repeated derivation *)

(** Claim C2, as stated, fails.  [Basket] refers to [Item], which has no
    schema yet and could be derived; deriving [Basket] does not derive
    [Item] first but raises the [ValueError] of [get_schema_cls] and leaves
    [Item] without a schema.  The mutually referring [Order] and [Customer]
    get the same [ValueError], each for the other: no cycle is detected as
    such. *)
Lemma related_model_not_derived_first :
  schema_factory Examples.cfg "Basket" Examples.st0 =
    (inl (ValueError (b_class (User "Item")) "ItemSchema"), Examples.st0) ∧
  getattr_schema (classes (schema_factory Examples.cfg "Basket" Examples.st0).2)
    (User "Item") = None ∧
  (schema_factory Examples.cfg "Item" Examples.st0).1 = inr tt ∧
  (schema_factory Examples.cfg "Order" Examples.st0).1 =
    inl (ValueError (b_class (User "Customer")) "CustomerSchema") ∧
  (schema_factory Examples.cfg "Customer" Examples.st0).1 =
    inl (ValueError (b_class (User "Order")) "OrderSchema").
Proof. vm_compute. split_and!; reflexivity. Qed.

Lemma refers_to_underived cfg st n m :
  refers_to cfg st n m →
  FIELD_TAB cfg (k_type (t_base (b_class (User m)))) = None →
  getattr_schema (classes st) (User m) = None →
  schema_factory cfg n st =
  (inl (ValueError (b_class (User m)) (String.append m "Schema")), st).
Proof.
  intros (base_init & pre & kwname & fspec & post & Hinit & Hsplit & Hpre & Hn & Ha)
         Htab Hattr.
  rewrite schema_factory_unfold, Hinit. unfold schema_attrs_loop.
  rewrite Hsplit, (attrs_loop_inl cfg n pre kwname fspec post ∅ st
                     (ValueError (b_class (User m)) (String.append m "Schema"))); try done.
  by apply make_field_nested_missing.
Qed.

(** Claim C2, amended.  Derivation never derives a related model.  When
    two models refer to each other through [One], [Many] or [List] fields,
    neither is in the field table and neither has a [__schema__]
    attribute, deriving either one terminates with the [ValueError] of
    [get_schema_cls] that names the other, and the state is as before:
    neither model has been derived. *)
Theorem mutual_references_raise cfg st a b :
  refers_to cfg st a b →
  refers_to cfg st b a →
  FIELD_TAB cfg (k_type (t_base (b_class (User a)))) = None →
  FIELD_TAB cfg (k_type (t_base (b_class (User b)))) = None →
  getattr_schema (classes st) (User a) = None →
  getattr_schema (classes st) (User b) = None →
  schema_factory cfg a st =
    (inl (ValueError (b_class (User b)) (String.append b "Schema")), st) ∧
  schema_factory cfg b st =
    (inl (ValueError (b_class (User a)) (String.append a "Schema")), st).
Proof.
  intros Hab Hba Hta Htb Hsa Hsb. split; by apply refers_to_underived.
Qed.

Lemma mutual_references_raise_witness :
  schema_factory Examples.cfg "Order" Examples.st0 =
    (inl (ValueError (b_class (User "Customer")) "CustomerSchema"), Examples.st0) ∧
  schema_factory Examples.cfg "Customer" Examples.st0 =
    (inl (ValueError (b_class (User "Order")) "OrderSchema"), Examples.st0).
Proof.
  apply (mutual_references_raise Examples.cfg Examples.st0 "Order" "Customer").
  - exists (Examples.stub "Order"
              [Examples.kwonly "customer" (Some VNone) (Examples.One "Customer")]),
      [], "customer",
      (fieldspec_of (Examples.kwonly "customer" (Some VNone) (Examples.One "Customer"))),
      [].
    split_and!; [vm_compute; reflexivity | reflexivity | constructor
                | reflexivity | reflexivity].
  - exists (Examples.stub "Customer"
              [Examples.kwonly "orders" (Some VNone) (Examples.Many "Order")]),
      [], "orders",
      (fieldspec_of (Examples.kwonly "orders" (Some VNone) (Examples.Many "Order"))),
      [].
    split_and!; [vm_compute; reflexivity | reflexivity | constructor
                | reflexivity | reflexivity].
  - reflexivity.
  - reflexivity.
  - vm_compute. reflexivity.
  - vm_compute. reflexivity.
Defined.




(** ** Construction: the attribute loop *)


(** One turn of the loop never raises: it appends its events, the last of
    which sets the attribute, and no other attribute. *)
Lemma assign_field_run owner kwargs kwname fspec :
  ∃ v evs,
    (∀ s, assign_field owner kwargs kwname fspec s =
          (inr tt, RunState (<[kwname := v]> (obj_attrs s))
                            (trace s ++ evs ++ [ev_setattr owner kwname v]))) ∧
    (∀ p, (∀ f, p (ev_factory f) = false) → count_events p evs = 0).
Proof.
  unfold assign_field. munfold. unfold setattr_obj, modify.
  set (attr0 := default (fs_default fspec) (kwargs !! kwname)).
  set (attr1 := if is_many_type (fs_type fspec) then py_or attr0 (VList []) else attr0).
  destruct (is_Raw (fs_type fspec)).
  { exists (py_or attr1 (VDict [])), []. split; [|done]. intros s. done. }
  destruct (callable (fs_default fspec)) eqn:Hcall.
  - destruct (truthy attr1).
    + exists attr1, []. split; [|done]. intros s. done.
    + destruct (fs_default fspec) as [| | | | | |name ret]; try done.
      exists ret, [ev_factory name]. split.
      * intros s. simpl. unfold emit, modify. simpl. by rewrite <- app_assoc.
      * intros p Hp. simpl. by rewrite Hp.
  - exists attr1, []. split; [|done]. intros s. done.
Qed.

(** The whole loop never raises, and what it appends to the trace does not
    depend on the state it starts from. *)
Lemma assign_fields_run owner kwargs fields s :
  ∃ attrs, assign_fields owner kwargs fields s =
           (inr tt, RunState attrs (trace s ++ assign_events owner kwargs fields)).
Proof.
  assert (∃ evs, ∀ s, ∃ attrs, assign_fields owner kwargs fields s =
                               (inr tt, RunState attrs (trace s ++ evs))) as [evs Hevs].
  { unfold assign_fields. induction fields as [|[k f] fields [evs IH]].
    - exists []. intros [attrs tr]. exists attrs. simpl. munfold. by rewrite app_nil_r.
    - destruct (assign_field_run owner kwargs k f) as (v & evs1 & Hrun & _).
      exists (evs1 ++ [ev_setattr owner k v] ++ evs). intros s0.
      rewrite for_each_cons, Hrun.
      destruct (IH (RunState (<[k:=v]> (obj_attrs s0))
                             (trace s0 ++ evs1 ++ [ev_setattr owner k v])))
        as [attrs ->].
      exists attrs. simpl. by rewrite <- !app_assoc. }
  unfold assign_events. destruct (Hevs (RunState ∅ [])) as [attrs0 ->].
  destruct (Hevs s) as [attrs ->]. by exists attrs.
Qed.




(** ** Construction: delegation along the chain *)


(** One call of a synthesized constructor, step by step. *)
Lemma call_init_model fuel ct cls owner fields base offset kwargs s :
  call_init (S fuel) ct cls (ModelInit owner fields base) offset kwargs s =
  let off := default 1 offset in
  let s1 := RunState (obj_attrs s) (trace s ++ [ev_enter owner off]) in
  match mro_of ct cls !! off with
  | None => (inl IndexError, s1)
  | Some next_in_line =>
      match getattr_init ct next_in_line with
      | None => (inl (AttributeError "__init__"), s1)
      | Some next_init =>
          match (if is_model_init next_init then
                   call_init fuel ct cls next_init (Some (S off))
                             (kwsift kwargs (signature next_init))
                 else if bool_decide (next_in_line ≠ Object) then
                   call_init fuel ct cls next_init None
                             (kwsift kwargs (signature next_init))
                 else mret tt) s1 with
          | (inl e, s2) => (inl e, s2)
          | (inr _, s2) =>
              match assign_fields owner kwargs fields s2 with
              | (inl e, s3) => (inl e, s3)
              | (inr _, s3) =>
                  call_init fuel ct cls base None (kwsift kwargs (signature base)) s3
              end
          end
      end
  end.
Proof.
  simpl call_init. munfold. unfold emit, modify at 1.
  destruct (mro_of ct cls !! default 1 offset); [|done].
  destruct (getattr_init ct c); [|done]. simpl. done.
Qed.






Section chain.
Variables (ct : gmap string model_cls) (c : string) (kwargs : gmap string pyval).
Variables (p : cref) (rest : list cref) (pinit : init).
Hypothesis Hp : getattr_init ct p = Some pinit.
Hypothesis Hplain : is_model_init pinit = false.

End chain.

(** ** Construction: counting in the trace of a chain *)














(** ** Construction: defaults of the attribute loop *)

(** A [Many] or [List] field whose default is not callable and whose
    supplied-or-default value is falsy ([None] in particular) is set to
    the empty list. *)
Lemma assign_field_many owner kwargs kwname fspec s :
  is_many_type (fs_type fspec) = true →
  callable (fs_default fspec) = false →
  truthy (default (fs_default fspec) (kwargs !! kwname)) = false →
  assign_field owner kwargs kwname fspec s =
  (inr tt, RunState (<[kwname := VList []]> (obj_attrs s))
                    (trace s ++ [ev_setattr owner kwname (VList [])])).
Proof.
  intros Hmany Hcall Hfalsy. unfold assign_field. munfold.
  rewrite Hmany, Hcall. unfold py_or. rewrite Hfalsy.
  by destruct (fs_type fspec) as [[]| | |].
Qed.

(** A [Raw] field whose supplied-or-default value is falsy is set to the
    empty dict. *)
Lemma assign_field_raw owner kwargs kwname fspec s :
  is_Raw (fs_type fspec) = true →
  truthy (default (fs_default fspec) (kwargs !! kwname)) = false →
  assign_field owner kwargs kwname fspec s =
  (inr tt, RunState (<[kwname := VDict []]> (obj_attrs s))
                    (trace s ++ [ev_setattr owner kwname (VDict [])])).
Proof.
  intros Hraw Hfalsy. unfold assign_field. munfold. rewrite Hraw.
  assert (is_many_type (fs_type fspec) = false) as ->.
  { by destruct (fs_type fspec) as [[]| | |]. }
  unfold py_or. by rewrite Hfalsy.
Qed.

(** A field whose default is a factory and for which no keyword is given
    is set to the factory itself: the factory is not called. *)
Lemma assign_field_factory_absent owner kwargs kwname fspec name ret s :
  is_Raw (fs_type fspec) = false →
  fs_default fspec = VFun name ret →
  kwargs !! kwname = None →
  assign_field owner kwargs kwname fspec s =
  (inr tt, RunState (<[kwname := VFun name ret]> (obj_attrs s))
                    (trace s ++ [ev_setattr owner kwname (VFun name ret)])).
Proof.
  intros Hraw Hdef Hkw. unfold assign_field. munfold.
  rewrite Hraw, Hdef, Hkw. simpl. by destruct (is_many_type (fs_type fspec)).
Qed.

(** The factory is called when a keyword is given and its value is falsy. *)
Lemma assign_field_factory_falsy owner kwargs kwname fspec name ret v s :
  is_Raw (fs_type fspec) = false →
  is_many_type (fs_type fspec) = false →
  fs_default fspec = VFun name ret →
  kwargs !! kwname = Some v →
  truthy v = false →
  assign_field owner kwargs kwname fspec s =
  (inr tt, RunState (<[kwname := ret]> (obj_attrs s))
                    (trace s ++ [ev_factory name; ev_setattr owner kwname ret])).
Proof.
  intros Hraw Hmany Hdef Hkw Hfalsy. unfold assign_field. munfold.
  rewrite Hraw, Hmany, Hdef, Hkw. simpl. rewrite Hfalsy. simpl.
  unfold emit, setattr_obj, modify. simpl. by rewrite <- app_assoc.
Qed.

(** Claim C3: the code at a failing input.  [Doc] declares
    [title: str = make_title], [meta: Raw = None] and
    [parts: List[str] = None].  Constructed without keywords, [meta] is
    the empty dict and [parts] the empty list, as claimed, but [title] is
    the function [make_title] itself and the factory has not been called;
    the factory is called when [title=None] is passed. *)
Theorem default_factory_not_called_when_absent :
  let r := construct 5 (classes Examples.st_Doc) "Doc" ∅ in
  let r' := construct 5 (classes Examples.st_Doc) "Doc" {["title" := VNone]} in
  r.1 = inr tt ∧
  obj_attrs r.2 !! "meta" = Some (VDict []) ∧
  obj_attrs r.2 !! "parts" = Some (VList []) ∧
  obj_attrs r.2 !! "title" = Some Examples.make_title ∧
  count_events (is_factory "make_title") (trace r.2) = 0 ∧
  r'.1 = inr tt ∧
  obj_attrs r'.2 !! "title" = Some (VStr "untitled") ∧
  count_events (is_factory "make_title") (trace r'.2) = 1.
Proof. vm_compute. split_and!; reflexivity. Qed.

(** * Further properties *)

(** ** [kwsift] as a filter *)

Lemma kwsift_lookup {V} (kw : gmap string V) (sig : signature_t) (k : string) :
  kwsift kw sig !! k =
  if has_var_keyword sig then kw !! k
  else if accepts_keyword sig k then kw !! k else None.
Proof.
  unfold kwsift. destruct (has_var_keyword sig) eqn:Hvk.
  - by rewrite kwsift_loop_var_keyword by by rewrite has_var_keyword_rev.
  - destruct (kwsift_loop_no_var_keyword kw (rev sig) ∅) as (out & -> & Hout).
    { by rewrite has_var_keyword_rev. }
    rewrite Hout, accepts_keyword_rev, lookup_empty.
    destruct (accepts_keyword sig k); [|done]. by destruct (kw !! k).
Qed.

(** [kwsift] never adds a keyword and never changes a value: its result is
    a sub-dict of its first argument, whatever the signature. *)
Theorem kwsift_subseteq {V} (kw : gmap string V) (sig : signature_t) :
  kwsift kw sig ⊆ kw.
Proof.
  apply map_subseteq_spec. intros k v. rewrite kwsift_lookup.
  destruct (has_var_keyword sig); [done|].
  by destruct (accepts_keyword sig k).
Qed.

(** Sifting twice with respect to the same function changes nothing more,
    and sifting with respect to two functions does not depend on the
    order. *)
Theorem kwsift_compose {V} (kw : gmap string V) (sig1 sig2 : signature_t) :
  kwsift (kwsift kw sig1) sig1 = kwsift kw sig1 ∧
  kwsift (kwsift kw sig1) sig2 = kwsift (kwsift kw sig2) sig1.
Proof.
  split; apply map_eq; intros k; rewrite !kwsift_lookup.
  - destruct (has_var_keyword sig1); [done|].
    by destruct (accepts_keyword sig1 k).
  - destruct (has_var_keyword sig1), (has_var_keyword sig2);
      destruct (accepts_keyword sig1 k), (accepts_keyword sig2 k); done.
Qed.

(** A keyword whose name is no parameter of the function is dropped unless
    the function has a variadic keyword parameter; a keyword that names a
    positional-only or variadic parameter is dropped as well. *)
Theorem kwsift_drops {V} (kw : gmap string V) (sig : signature_t) (k : string) :
  has_var_keyword sig = false →
  (∀ p, p ∈ sig → p_name p = k →
        p_kind p = POSITIONAL_ONLY ∨ p_kind p = VAR_POSITIONAL) →
  kwsift kw sig !! k = None.
Proof.
  intros Hvk Hk. rewrite kwsift_lookup, Hvk.
  destruct (accepts_keyword sig k) eqn:Hacc; [|done].
  apply accepts_keyword_true in Hacc as (p & Hin & Hn & Hkind).
  destruct (Hk p Hin Hn) as [Hp|Hp]; rewrite Hp in Hkind; by destruct Hkind.
Qed.

Lemma kwsift_drops_witness :
  kwsift ({["self" := 1; "x" := 2; "y" := 3]} : gmap string nat)
    [Param "self" POSITIONAL_ONLY None no_annot;
     Param "x" KEYWORD_ONLY None no_annot] !! "self" = None.
Proof.
  apply kwsift_drops; [reflexivity|].
  intros p Hin Hn. apply elem_of_cons in Hin as [->|Hin]; [by left|].
  apply elem_of_cons in Hin as [->|Hin]; [done|]. by apply elem_of_nil in Hin.
Defined.

(** ** The field table and [get_schema_cls] *)

Lemma assoc_Some_elem {K V} `{EqDecision K} (l : list (K * V)) k v :
  assoc l k = Some v → (k, v) ∈ l.
Proof.
  induction l as [|[k' v'] l IH]; [done|]. simpl.
  destruct (decide (k' = k)) as [->|]; [intros [= ->]; left|right; auto].
Qed.

Lemma assoc_None {K V} `{EqDecision K} (l : list (K * V)) k :
  assoc l k = None ↔ k ∉ l.*1.
Proof.
  induction l as [|[k' v'] l IH]; simpl.
  - split; [intros _; apply not_elem_of_nil|done].
  - rewrite not_elem_of_cons. destruct (decide (k' = k)) as [->|Hne].
    + split; [done|]. by intros [? _].
    + rewrite IH. split; [by split|by intros [_ ?]].
Qed.

Lemma assoc_NoDup {K V} `{EqDecision K} (l : list (K * V)) k v :
  NoDup l.*1 → (k, v) ∈ l → assoc l k = Some v.
Proof.
  induction l as [|[k' v'] l IH]; intros Hnd Hin.
  { by apply elem_of_nil in Hin. }
  simpl in *. apply NoDup_cons in Hnd as [Hk' Hnd].
  apply elem_of_cons in Hin as [[= -> ->]|Hin].
  - by rewrite decide_True.
  - rewrite decide_False; [by apply IH|]. intros ->. apply Hk'.
    apply list_elem_of_fmap. by exists (k, v).
Qed.

(** The caller's map is merged over the built-in table: an entry of the
    caller is what the table holds for its key, a key the caller does not
    mention keeps its built-in codec, and so no built-in key, ['nested']
    and ['list'] included, can become unregistered. *)
Theorem FIELD_TAB_update cfg :
  NoDup (extended_field_map cfg).*1 →
  (∀ k f, (k, f) ∈ extended_field_map cfg → FIELD_TAB cfg k = Some f) ∧
  (∀ k, k ∉ (extended_field_map cfg).*1 → FIELD_TAB cfg k = FIELD_TAB_builtin k) ∧
  (∀ k, is_Some (FIELD_TAB_builtin k) → is_Some (FIELD_TAB cfg k)) ∧
  is_Some (FIELD_TAB cfg (k_str "nested")) ∧
  is_Some (FIELD_TAB cfg (k_str "list")).
Proof.
  intros Hnd.
  assert (∀ k, is_Some (FIELD_TAB_builtin k) → is_Some (FIELD_TAB cfg k)) as Hkeep.
  { intros k Hk. unfold FIELD_TAB. by destruct (assoc _ k). }
  split_and!; try done.
  - intros k f Hin. unfold FIELD_TAB. by rewrite (assoc_NoDup _ _ _ Hnd Hin).
  - intros k Hk. unfold FIELD_TAB. apply assoc_None in Hk. by rewrite Hk.
  - by apply Hkeep.
  - by apply Hkeep.
Qed.

Lemma FIELD_TAB_update_witness :
  FIELD_TAB MoreExamples.cfg (k_type (t_base b_int)) = Some (fields_custom "BigInt") ∧
  FIELD_TAB MoreExamples.cfg (k_type (t_base b_str)) = Some fields_String.
Proof.
  destruct (FIELD_TAB_update MoreExamples.cfg) as (Hin & Hout & _).
  - apply (bool_decide_unpack _). vm_compute. exact I.
  - split.
    + apply Hin. left.
    + rewrite Hout; [reflexivity|].
      apply (bool_decide_unpack _). vm_compute. exact I.
Defined.

Lemma FIELD_TAB_nested cfg :
  is_Some (FIELD_TAB cfg (k_str "nested")) ∧ is_Some (FIELD_TAB cfg (k_str "list")).
Proof. unfold FIELD_TAB. split; by destruct (assoc _ _). Qed.

Lemma get_schema_cls_succeeds cfg b st :
  (∃ r, (get_schema_cls cfg b st).1 = inr r) ↔
  is_Some (FIELD_TAB cfg (k_type (t_base b))) ∨
  is_Some (getattr_schema_of (classes st) b).
Proof.
  unfold get_schema_cls. munfold.
  destruct (FIELD_TAB cfg (k_type (t_base b))) as [f|]; simpl.
  { split; [intros _; left; by eexists|intros _; by eexists]. }
  destruct (getattr_schema_of (classes st) b) as [s|]; simpl.
  - split; [intros _; right; by eexists|intros _; by eexists].
  - split; [by intros [? ?]|by intros [[? ?]|[? ?]]].
Qed.

(** [get_schema_cls] reads without writing.  The field table comes first:
    a registered class resolves to its table entry even when it carries a
    schema.  It returns normally exactly when the class is registered or
    has a [__schema__] attribute, its own or inherited. *)
Theorem get_schema_cls_resolves cfg b st :
  (get_schema_cls cfg b st).2 = st ∧
  (∀ f, FIELD_TAB cfg (k_type (t_base b)) = Some f →
        (get_schema_cls cfg b st).1 = inr (r_factory f)) ∧
  (∀ s, FIELD_TAB cfg (k_type (t_base b)) = None →
        getattr_schema_of (classes st) b = Some s →
        (get_schema_cls cfg b st).1 = inr (r_schema s)) ∧
  ((∃ r, (get_schema_cls cfg b st).1 = inr r) ↔
   is_Some (FIELD_TAB cfg (k_type (t_base b))) ∨
   is_Some (getattr_schema_of (classes st) b)).
Proof.
  split; [apply get_schema_cls_state|]. unfold get_schema_cls. munfold.
  destruct (FIELD_TAB cfg (k_type (t_base b))) as [f|] eqn:Htab.
  - split_and!; try done.
    + by intros ? [= ->].
    + split; [intros _; left; by eexists|intros _; by eexists].
  - destruct (getattr_schema_of (classes st) b) as [s|] eqn:Hattr; simpl.
    + split_and!; try done.
      * by intros ? _ [= ->].
      * split; [intros _; right; by eexists|intros _; by eexists].
    + split_and!; try done. split.
      * by intros [? ?].
      * by intros [[? ?]|[? ?]].
Qed.

Lemma get_schema_cls_resolves_witness :
  (get_schema_cls Examples.cfg (b_class (User "Person")) Examples.st_Person).1
  = inr (r_schema 1).
Proof.
  destruct (get_schema_cls_resolves Examples.cfg (b_class (User "Person"))
              Examples.st_Person) as (_ & _ & H & _).
  apply H; vm_compute; reflexivity.
Defined.

(** ** When a derivation succeeds *)

Lemma make_field_succeeds cfg n kwname fspec st :
  (∃ fld, make_field cfg n kwname fspec st = (inr fld, st)) ↔
  field_resolves cfg st fspec.
Proof.
  unfold field_resolves, make_field. munfold.
  destruct (is_nested_type (fs_type fspec)) eqn:Hn.
  - destruct (type_args (fs_type fspec)) as [a|].
    + pose proof (get_schema_cls_state cfg a st) as Hst.
      pose proof (get_schema_cls_succeeds cfg a st) as Hiff.
      destruct (get_schema_cls cfg a st) as [[e|r] st1] eqn:Hget;
        simpl in Hst, Hiff; subst st1.
      * split; [by intros [? ?]|]. intros (a' & [= <-] & Hres).
        apply Hiff in Hres as [? ?]. done.
      * assert (is_Some (FIELD_TAB cfg
                  (if negb (is_List (fs_type fspec)) then k_str "nested" else k_str "list")))
          as [f Hf].
        { destruct (FIELD_TAB_nested cfg). by destruct (negb _). }
        simpl. rewrite Hf. split; [|intros _; by eexists].
        intros _. exists a. split; [done|]. apply Hiff. by eexists.
    + split; [by intros [? ?]|]. by intros (a & ? & _).
  - simpl. destruct (FIELD_TAB cfg (k_type (fs_type fspec))) as [f|].
    + split; [intros _; by eexists|intros _; by eexists].
    + split; [by intros [? ?]|by intros [? ?]].
Qed.




(** A field annotated with an unparameterised [One], [Many] or [List]
    cannot be derived: when the fields declared before it resolve, the
    derivation raises the [TypeError] of subscripting [None] and changes
    nothing. *)
Theorem unparameterised_generic_raises cfg n st base_init pre kwname fspec post :
  getattr_init (classes st) (User n) = Some base_init →
  init_named_kwargs (signature base_init) = pre ++ (kwname, fspec) :: post →
  Forall (λ kf, field_resolves cfg st kf.2) pre →
  is_nested_type (fs_type fspec) = true →
  type_args (fs_type fspec) = None →
  schema_factory cfg n st = (inl TypeError, st).
Proof.
  intros Hinit Hsplit Hpre Hn Hargs.
  rewrite schema_factory_unfold, Hinit. unfold schema_attrs_loop.
  rewrite Hsplit, (attrs_loop_inl cfg n pre kwname fspec post ∅ st TypeError); [done| |].
  - eapply Forall_impl; [exact Hpre|]. intros [k f] Hres. simpl.
    by apply make_field_succeeds.
  - unfold make_field. munfold. by rewrite Hn, Hargs.
Qed.

Lemma unparameterised_generic_raises_witness :
  schema_factory MoreExamples.cfg "Broken" MoreExamples.st0 =
  (inl TypeError, MoreExamples.st0).
Proof.
  apply (unparameterised_generic_raises MoreExamples.cfg "Broken" MoreExamples.st0
           (Examples.stub "Broken" [Examples.kwonly "other" (Some VNone) (t_One None)])
           [] "other"
           (fieldspec_of (Examples.kwonly "other" (Some VNone) (t_One None))) []).
  - vm_compute. reflexivity.
  - reflexivity.
  - constructor.
  - reflexivity.
  - reflexivity.
Defined.


(** ** What a successful derivation leaves behind *)

(** The model and its schema point at each other: the class bound to the
    model's [__schema__] is the one just created, its [__model__] is the
    model, its name is the model's name followed by [Schema], its last
    base is the configured schema base class, and [dump], [load] and the
    synthesized constructor are bound on the model. *)
Theorem derivation_attaches cfg n st st' :
  schema_factory cfg n st = (inr tt, st') →
  ∃ k sc base_init,
    classes st' !! n = Some k ∧
    cls_schema k = Some (length (schemas st)) ∧
    schemas st' !! length (schemas st) = Some sc ∧
    length (schemas st') = S (length (schemas st)) ∧
    sc_model sc = Some n ∧
    sc_name sc = String.append n "Schema" ∧
    last (sc_bases sc) = Some (schema_base_class cfg) ∧
    cls_dump k = true ∧ cls_load k = true ∧
    getattr_init (classes st) (User n) = Some base_init ∧
    cls_init k = Some (ModelInit n (init_named_kwargs (signature base_init)) base_init).
Proof.
  intros Hok.
  destruct (schema_factory_inr _ _ _ _ Hok) as (base_init & attrs & k & Hinit & Hk & Hloop & ->).
  exists (derive_model cfg n base_init k st), (new_schema_cls cfg n attrs st), base_init.
  simpl. split_and!; try done.
  - by rewrite lookup_insert_eq.
  - by rewrite lookup_app_r, Nat.sub_diag by lia.
  - rewrite length_app. simpl. lia.
  - unfold schema_bases. by rewrite last_snoc.
Qed.

Lemma derivation_attaches_witness :
  ∃ k sc, classes Examples.st_Person !! "Person" = Some k ∧
          cls_schema k = Some 1 ∧
          schemas Examples.st_Person !! 1 = Some sc ∧
          sc_model sc = Some "Person".
Proof.
  destruct (derivation_attaches Examples.cfg "Person" Examples.st0 Examples.st_Person)
    as (k & sc & b & Hk & Hs & Hsc & _ & Hm & _).
  - vm_compute. reflexivity.
  - exists k, sc. split_and!; [exact Hk|exact Hs|exact Hsc|exact Hm].
Defined.

(** Nothing else is touched: every other class of the table and every
    schema class that existed is as before, the table has the same
    classes, and the model keeps its [__mro__] and its [irregular_names]. *)
Theorem derivation_frame cfg n st st' :
  schema_factory cfg n st = (inr tt, st') →
  (∀ m, m ≠ n → classes st' !! m = classes st !! m) ∧
  (∀ m, is_Some (classes st' !! m) ↔ is_Some (classes st !! m)) ∧
  (∀ i sc, schemas st !! i = Some sc → schemas st' !! i = Some sc) ∧
  (∀ c, mro_of (classes st') c = mro_of (classes st) c) ∧
  (∀ c, own_irregular_names (classes st') c = own_irregular_names (classes st) c).
Proof.
  intros Hok.
  destruct (schema_factory_inr _ _ _ _ Hok) as (base_init & attrs & k & Hinit & Hk & Hloop & ->).
  simpl. split_and!.
  - intros m Hm. by rewrite lookup_insert_ne.
  - intros m. destruct (decide (m = n)) as [->|Hm].
    + rewrite lookup_insert_eq, Hk. split; intros _; by eexists.
    + by rewrite lookup_insert_ne.
  - intros i sc Hi. by apply lookup_app_l_Some.
  - intros [|m]; [done|]. simpl. destruct (decide (m = n)) as [->|Hm].
    + by rewrite lookup_insert_eq, Hk.
    + by rewrite lookup_insert_ne.
  - intros [|m]; [done|]. simpl. destruct (decide (m = n)) as [->|Hm].
    + by rewrite lookup_insert_eq, Hk.
    + by rewrite lookup_insert_ne.
Qed.

Lemma derivation_frame_witness :
  classes Examples.st_Person !! "Employee" = classes Examples.st0 !! "Employee".
Proof.
  destruct (derivation_frame Examples.cfg "Person" Examples.st0 Examples.st_Person)
    as (H & _).
  - vm_compute. reflexivity.
  - by apply H.
Defined.

(** Each codec mirrors its descriptor, and the consequences of
    [default=fspec.default or missing]: a required field has no codec
    default and does not allow [None]; a field that allows [None] has no
    codec default either; the name read from and the name written to are
    the same. *)
Theorem codec_flags cfg n st st' :
  schema_factory cfg n st = (inr tt, st') →
  ∃ sc, schemas st' !! length (schemas st) = Some sc ∧
    ∀ kwname fld, sc_attrs sc !! kwname = Some fld →
      fld_load_from fld = fld_dump_to fld ∧
      (fld_required fld = true → fld_default fld = missing ∧ fld_allow_none fld = false) ∧
      (fld_allow_none fld = true → fld_default fld = missing ∧ fld_required fld = false) ∧
      (∀ v, fld_default fld = dflt v → truthy v = true ∧ fld_required fld = false).
Proof.
  intros Hok.
  destruct (schema_factory_inr _ _ _ _ Hok) as (base_init & attrs & k & Hinit & Hk & Hloop & ->).
  exists (new_schema_cls cfg n attrs st). simpl.
  split; [by rewrite lookup_app_r, Nat.sub_diag by lia|].
  destruct (attrs_loop_inr cfg n _ _ _ _ _ Hloop) as [Hfrom _].
  intros kwname fld Hfld. destruct (Hfrom _ _ Hfld) as [Hemp|(fspec & Hin & Hmk)].
  { by rewrite lookup_empty in Hemp. }
  apply make_field_inr in Hmk as (Hd & Hr & Ha & _ & Hnames).
  rewrite init_named_kwargs_filter in Hin.
  apply list_elem_of_fmap in Hin as (p & [= -> ->] & _).
  rewrite Hd, Hr, Ha. unfold fieldspec_of. simpl.
  split; [done|]. destruct (p_default p) as [d|]; simpl.
  - split_and!; try done.
    + by destruct d.
    + intros v. destruct (truthy d) eqn:Ht; [|done]. by intros [= <-].
  - split_and!; try done.
Qed.

Lemma codec_flags_witness :
  ∃ sc, schemas Examples.st_Person !! 1 = Some sc ∧
        fld_default <$> sc_attrs sc !! "name" = Some missing.
Proof.
  destruct (codec_flags Examples.cfg "Person" Examples.st0 Examples.st_Person)
    as (sc & Hsc & Hflags).
  - vm_compute. reflexivity.
  - exists sc. split; [exact Hsc|].
    destruct (sc_attrs sc !! "name") as [fld|] eqn:Hfld.
    + destruct (Hflags "name" fld Hfld) as (_ & Hreq & _).
      simpl. f_equal. apply Hreq.
      vm_compute in Hsc. injection Hsc as <-. vm_compute in Hfld.
      injection Hfld as <-. reflexivity.
    + vm_compute in Hsc. injection Hsc as <-. vm_compute in Hfld. discriminate.
Defined.

(** ** External names and nested codecs *)

Lemma make_field_names cfg n kwname fspec st fld st' :
  make_field cfg n kwname fspec st = (inr fld, st') →
  fld_load_from fld =
    default (field_namer cfg kwname)
            (default ∅ (getattr_irregular_names (classes st) (User n)) !! kwname) ∧
  fld_dump_to fld = fld_load_from fld.
Proof.
  unfold make_field. munfold.
  destruct (is_nested_type (fs_type fspec)).
  - destruct (type_args (fs_type fspec)) as [a|]; [|done].
    pose proof (get_schema_cls_state cfg a st) as Hst.
    destruct (get_schema_cls cfg a st) as [[e|r] st1]; simpl in Hst; subst; [done|].
    simpl. destruct (FIELD_TAB cfg _); [|done]. by intros [= <- <-].
  - destruct (FIELD_TAB cfg _); [|done]. by intros [= <- <-].
Qed.

(** The external name of a field is used for reading and for writing alike.
    It is the entry of the model's own [irregular_names] when there is
    one; a field the model's own table does not mention gets the name the
    field namer gives it, whatever the tables of the ancestors say; a
    model with no table anywhere in its [__mro__] uses the field namer
    throughout. *)
Theorem external_names cfg n st st' k rest :
  schema_factory cfg n st = (inr tt, st') →
  classes st !! n = Some k →
  cls_mro k = User n :: rest →
  ∃ sc, schemas st' !! length (schemas st) = Some sc ∧
    ∀ kwname fld, sc_attrs sc !! kwname = Some fld →
      fld_dump_to fld = fld_load_from fld ∧
      (∀ d, cls_irregular_names k = Some d →
            fld_load_from fld = default (field_namer cfg kwname) (d !! kwname)) ∧
      (getattr_irregular_names (classes st) (User n) = None →
       fld_load_from fld = field_namer cfg kwname).
Proof.
  intros Hok Hk Hmro.
  destruct (schema_factory_inr _ _ _ _ Hok)
    as (base_init & attrs & k' & Hinit & Hk' & Hloop & ->).
  exists (new_schema_cls cfg n attrs st). simpl.
  split; [by rewrite lookup_app_r, Nat.sub_diag by lia|].
  destruct (attrs_loop_inr cfg n _ _ _ _ _ Hloop) as [Hfrom _].
  intros kwname fld Hfld. destruct (Hfrom _ _ Hfld) as [Hemp|(fspec & Hin & Hmk)].
  { by rewrite lookup_empty in Hemp. }
  apply make_field_names in Hmk as [Hname Hsame]. split_and!; [done| |].
  - intros d Hd. rewrite Hname.
    assert (getattr_irregular_names (classes st) (User n) = Some d) as ->; [|done].
    unfold getattr_irregular_names, mro_of. rewrite Hk, Hmro. simpl.
    rewrite Hk. simpl. by rewrite Hd.
  - intros Hnone. rewrite Hname, Hnone. simpl. by rewrite lookup_empty.
Qed.

Lemma external_names_witness :
  ∃ sc, schemas MoreExamples.st_Savings !! 2 = Some sc ∧
        fld_load_from <$> sc_attrs sc !! "rate" = Some "interestRate" ∧
        fld_load_from <$> sc_attrs sc !! "id_" = Some "x_id_".
Proof.
  destruct (external_names MoreExamples.cfg "Savings" MoreExamples.st_Account
              MoreExamples.st_Savings MoreExamples.Savings [User "Account"; Object])
    as (sc & Hsc & Hnames).
  - vm_compute. reflexivity.
  - vm_compute. reflexivity.
  - reflexivity.
  - exists sc. split; [exact Hsc|]. split.
    + destruct (sc_attrs sc !! "rate") as [fld|] eqn:Hfld.
      * destruct (Hnames "rate" fld Hfld) as (_ & Hown & _).
        simpl. f_equal. by rewrite (Hown _ eq_refl).
      * vm_compute in Hsc. injection Hsc as <-. vm_compute in Hfld. discriminate.
    + destruct (sc_attrs sc !! "id_") as [fld|] eqn:Hfld.
      * destruct (Hnames "id_" fld Hfld) as (_ & Hown & _).
        simpl. f_equal. by rewrite (Hown _ eq_refl).
      * vm_compute in Hsc. injection Hsc as <-. vm_compute in Hfld. discriminate.
Defined.

Lemma make_field_codec cfg n kwname fspec st fld st' :
  make_field cfg n kwname fspec st = (inr fld, st') →
  match fs_type fspec with
  | t_base b =>
      FIELD_TAB cfg (k_type (t_base b)) = Some (fld_factory fld) ∧
      fld_args fld = [] ∧ fld_many fld = false
  | t_One arg =>
      FIELD_TAB cfg (k_str "nested") = Some (fld_factory fld) ∧
      (∃ a r, arg = Some a ∧ (get_schema_cls cfg a st).1 = inr r ∧ fld_args fld = [r]) ∧
      fld_many fld = false
  | t_Many arg =>
      FIELD_TAB cfg (k_str "nested") = Some (fld_factory fld) ∧
      (∃ a r, arg = Some a ∧ (get_schema_cls cfg a st).1 = inr r ∧ fld_args fld = [r]) ∧
      fld_many fld = true
  | t_List arg =>
      FIELD_TAB cfg (k_str "list") = Some (fld_factory fld) ∧
      (∃ a r, arg = Some a ∧ (get_schema_cls cfg a st).1 = inr r ∧ fld_args fld = [r]) ∧
      fld_many fld = true
  end.
Proof.
  unfold make_field. munfold.
  destruct (fs_type fspec) as [b|[a|]|[a|]|[a|]]; simpl; try done.
  - destruct (FIELD_TAB cfg _) eqn:Htab; [|done]. by intros [= <- <-].
  - destruct (get_schema_cls cfg a st) as [[e|r] st1] eqn:Hget; [done|]. simpl.
    destruct (FIELD_TAB cfg _) eqn:Htab; [|done]. intros [= <- <-]. simpl.
    split_and!; try done. exists a, r. by rewrite Hget.
  - destruct (get_schema_cls cfg a st) as [[e|r] st1] eqn:Hget; [done|]. simpl.
    destruct (FIELD_TAB cfg _) eqn:Htab; [|done]. intros [= <- <-]. simpl.
    split_and!; try done. exists a, r. by rewrite Hget.
  - destruct (get_schema_cls cfg a st) as [[e|r] st1] eqn:Hget; [done|]. simpl.
    destruct (FIELD_TAB cfg _) eqn:Htab; [|done]. intros [= <- <-]. simpl.
    split_and!; try done. exists a, r. by rewrite Hget.
Qed.

(** Which codec a field gets.  A plain annotation gets the table entry of
    the annotation, without positional argument.  [One[T]] and [Many[T]]
    get the entry of ['nested'], [List[T]] the entry of ['list'], each
    with what [T] resolves to as only positional argument; [many] is set
    for [Many] and [List] and not for [One]. *)
Theorem codec_of_annotation cfg n st st' :
  schema_factory cfg n st = (inr tt, st') →
  ∃ base_init sc,
    getattr_init (classes st) (User n) = Some base_init ∧
    schemas st' !! length (schemas st) = Some sc ∧
    ∀ kwname fld, sc_attrs sc !! kwname = Some fld →
      ∃ fspec, (kwname, fspec) ∈ init_named_kwargs (signature base_init) ∧
        match fs_type fspec with
        | t_base b =>
            FIELD_TAB cfg (k_type (t_base b)) = Some (fld_factory fld) ∧
            fld_args fld = [] ∧ fld_many fld = false
        | t_One arg =>
            FIELD_TAB cfg (k_str "nested") = Some (fld_factory fld) ∧
            (∃ a r, arg = Some a ∧ (get_schema_cls cfg a st).1 = inr r ∧
                    fld_args fld = [r]) ∧
            fld_many fld = false
        | t_Many arg =>
            FIELD_TAB cfg (k_str "nested") = Some (fld_factory fld) ∧
            (∃ a r, arg = Some a ∧ (get_schema_cls cfg a st).1 = inr r ∧
                    fld_args fld = [r]) ∧
            fld_many fld = true
        | t_List arg =>
            FIELD_TAB cfg (k_str "list") = Some (fld_factory fld) ∧
            (∃ a r, arg = Some a ∧ (get_schema_cls cfg a st).1 = inr r ∧
                    fld_args fld = [r]) ∧
            fld_many fld = true
        end.
Proof.
  intros Hok.
  destruct (schema_factory_inr _ _ _ _ Hok) as (base_init & attrs & k & Hinit & Hk & Hloop & ->).
  exists base_init, (new_schema_cls cfg n attrs st). simpl.
  split; [done|]. split; [by rewrite lookup_app_r, Nat.sub_diag by lia|].
  destruct (attrs_loop_inr cfg n _ _ _ _ _ Hloop) as [Hfrom _].
  intros kwname fld Hfld. destruct (Hfrom _ _ Hfld) as [Hemp|(fspec & Hin & Hmk)].
  { by rewrite lookup_empty in Hemp. }
  exists fspec. split; [done|]. by apply make_field_codec in Hmk.
Qed.

Lemma codec_of_annotation_witness :
  ∃ sc, schemas MoreExamples.st_Ledger !! 2 = Some sc ∧
        fld_args <$> sc_attrs sc !! "accounts" = Some [r_schema 1].
Proof.
  destruct (codec_of_annotation MoreExamples.cfg "Ledger" MoreExamples.st_Account
              MoreExamples.st_Ledger) as (b & sc & _ & Hsc & _).
  - vm_compute. reflexivity.
  - exists sc. split; [exact Hsc|].
    vm_compute in Hsc. injection Hsc as <-. vm_compute. reflexivity.
Defined.



(** ** More on construction *)

Lemma assign_field_supplied owner kwargs kwname fspec v s :
  kwargs !! kwname = Some v →
  truthy v = true →
  assign_field owner kwargs kwname fspec s =
  (inr tt, RunState (<[kwname := v]> (obj_attrs s))
                    (trace s ++ [ev_setattr owner kwname v])).
Proof.
  intros Hkw Hv. unfold assign_field. munfold. rewrite Hkw. simpl.
  unfold py_or.
  destruct (is_many_type (fs_type fspec)), (is_Raw (fs_type fspec)),
    (callable (fs_default fspec)); by rewrite ?Hv.
Qed.

(** A keyword that is supplied with a truthy value is stored as it is,
    whatever the annotation and the default of the field, and no default
    factory is called. *)
Theorem supplied_value_is_kept owner kwargs kwname fspec v s :
  kwargs !! kwname = Some v →
  truthy v = true →
  assign_field owner kwargs kwname fspec s =
  (inr tt, RunState (<[kwname := v]> (obj_attrs s))
                    (trace s ++ [ev_setattr owner kwname v])).
Proof. apply assign_field_supplied. Qed.

Lemma supplied_value_is_kept_witness :
  (assign_field "Doc" {["meta" := VInt 7]} "meta"
     (fieldspec_of (Examples.kwonly "meta" (Some VNone) (t_base b_Raw)))
     (RunState ∅ [])).1 = inr tt.
Proof.
  rewrite (supplied_value_is_kept "Doc" {["meta" := VInt 7]} "meta" _ (VInt 7));
    reflexivity.
Defined.

Lemma assign_field_many_witness :
  assign_field "Manager" ∅ "reports"
    (fieldspec_of (Examples.kwonly "reports" (Some VNone) (Examples.Many "Employee")))
    (RunState ∅ []) =
  (inr tt, RunState {["reports" := VList []]} [ev_setattr "Manager" "reports" (VList [])]).
Proof. by apply assign_field_many. Defined.

Lemma assign_field_raw_witness :
  assign_field "Doc" {["meta" := VInt 0]} "meta"
    (fieldspec_of (Examples.kwonly "meta" (Some VNone) (t_base b_Raw)))
    (RunState ∅ []) =
  (inr tt, RunState {["meta" := VDict []]} [ev_setattr "Doc" "meta" (VDict [])]).
Proof. by apply assign_field_raw. Defined.

Lemma assign_field_factory_absent_witness :
  assign_field "Doc" ∅ "title"
    (fieldspec_of (Examples.kwonly "title" (Some Examples.make_title) (t_base b_str)))
    (RunState ∅ []) =
  (inr tt, RunState {["title" := Examples.make_title]}
                    [ev_setattr "Doc" "title" Examples.make_title]).
Proof. by apply assign_field_factory_absent. Defined.

Lemma assign_field_factory_falsy_witness :
  assign_field "Doc" {["title" := VStr ""]} "title"
    (fieldspec_of (Examples.kwonly "title" (Some Examples.make_title) (t_base b_str)))
    (RunState ∅ []) =
  (inr tt, RunState {["title" := VStr "untitled"]}
                    [ev_factory "make_title"; ev_setattr "Doc" "title" (VStr "untitled")]).
Proof.
  rewrite (assign_field_factory_falsy _ _ _ _ "make_title" (VStr "untitled") (VStr ""));
    reflexivity.
Defined.

(** An offset that points past the end of the [__mro__] makes the
    synthesized constructor raise [IndexError] on entry, before any
    attribute is set or any other constructor is called. *)
Theorem offset_out_of_range fuel ct cls owner fields base k kwargs s :
  (length (mro_of ct cls) ≤ k)%nat →
  call_init (S fuel) ct cls (ModelInit owner fields base) (Some k) kwargs s =
  (inl IndexError, RunState (obj_attrs s) (trace s ++ [ev_enter owner k])).
Proof.
  intros Hk. rewrite call_init_model. simpl default. cbv zeta.
  by rewrite lookup_ge_None_2.
Qed.

Lemma offset_out_of_range_witness :
  (call_init 5 (classes Examples.st_Person) (User "Person")
     (ModelInit "Person" [] object_init) (Some 2) ∅ (RunState ∅ [])).1 = inl IndexError.
Proof. rewrite offset_out_of_range; [reflexivity|]. vm_compute. lia. Defined.

(** After a model [a] has been decorated twice, the constructor of [a]
    can no longer be reached from a direct subclass: entered with offset
    2, it runs its wrapped first constructor with the default offset 1,
    which finds [a] again at position 1 and enters the same constructor
    with offset 2.  Whatever the recursion depth, a construction of the
    subclass through a synthesized constructor ends in [RecursionError]. *)
Theorem twice_decorated_ancestor_recurses ct c a o2 fs2 o1 fs1 b1 oc fsc bc :
  mro_of ct (User c) = [User c; User a; Object] →
  getattr_init ct (User a) = Some (ModelInit o2 fs2 (ModelInit o1 fs1 b1)) →
  getattr_init ct (User c) = Some (ModelInit oc fsc bc) →
  ∀ fuel kwargs, (construct fuel ct c kwargs).1 = inl RecursionError.
Proof.
  intros Hmro Ha Hc.
  assert (∀ fuel kwargs s,
            (call_init fuel ct (User c) (ModelInit o2 fs2 (ModelInit o1 fs1 b1))
                       (Some 2) kwargs s).1 = inl RecursionError) as Hloop.
  { induction fuel as [fuel IH] using lt_wf_ind. intros kwargs s.
    destruct fuel as [|fuel]; [done|].
    rewrite call_init_model. simpl default. cbv zeta. rewrite Hmro. simpl lookup.
    change (getattr_init ct Object) with (Some object_init). simpl.
    match goal with
    | |- context [assign_fields _ _ _ ?s0] =>
        destruct (assign_fields_run o2 kwargs fs2 s0) as [attrs ->]
    end.
    destruct fuel as [|fuel]; [done|].
    rewrite call_init_model. simpl default. cbv zeta. rewrite Hmro. simpl lookup.
    cbv beta iota. rewrite Ha. simpl.
    match goal with
    | |- context [call_init fuel ct (User c) ?f (Some 2) ?kw ?s0] =>
        pose proof (IH fuel ltac:(lia) kw s0) as Hrec;
        destruct (call_init fuel ct (User c) f (Some 2) kw s0) as [[e|[]] s1]
    end; simpl in Hrec; [|done]. by injection Hrec as ->. }
  intros fuel kwargs. unfold construct. rewrite Hc.
  destruct fuel as [|fuel]; [done|].
  rewrite call_init_model. simpl default. cbv zeta. rewrite Hmro. simpl lookup.
  cbv beta iota. rewrite Ha. simpl.
  match goal with
  | |- context [call_init fuel ct (User c) ?f (Some 2) ?kw ?s0] =>
      pose proof (Hloop fuel kw s0) as Hrec;
      destruct (call_init fuel ct (User c) f (Some 2) kw s0) as [[e|[]] s1]
  end; simpl in Hrec; [|done]. by injection Hrec as ->.
Qed.

Lemma twice_decorated_ancestor_recurses_witness :
  (construct 100 (classes MoreExamples.st_Employee_after) "Employee" ∅).1
  = inl RecursionError.
Proof.
  eapply (twice_decorated_ancestor_recurses
            (classes MoreExamples.st_Employee_after) "Employee" "Person").
  - vm_compute. reflexivity.
  - vm_compute. reflexivity.
  - vm_compute. reflexivity.
Defined.

(** ** Decorating a class that has no constructor of its own *)





(** ** [dump] and [load] after a derivation *)

(** After a model has been derived, [dump] on its instances and [load] on
    the class instantiate the schema class that the derivation created,
    pass the positional arguments through, pass [strict=True] unless the
    caller gave [strict], and forward the other keywords without
    [strict]. *)
Theorem facade_after_derivation cfg n st st' k rest args kwargs :
  schema_factory cfg n st = (inr tt, st') →
  classes st !! n = Some k →
  cls_mro k = User n :: rest →
  let call := SchemaCall (length (schemas st)) args
                (default (VBool true) (kwargs !! "strict")) (delete "strict" kwargs) in
  model_dump (classes st') (User n) args kwargs = inr call ∧
  model_load (classes st') (User n) args kwargs = inr call ∧
  call_kwargs call !! "strict" = None ∧
  (∀ key, key ≠ "strict" → call_kwargs call !! key = kwargs !! key).
Proof.
  intros Hok Hk Hmro call.
  destruct (schema_factory_inr _ _ _ _ Hok)
    as (base_init & attrs & k' & Hinit & Hk' & Hloop & ->).
  rewrite Hk in Hk'. injection Hk' as <-.
  unfold model_dump, model_load, getattr_schema, mro_of. simpl.
  rewrite !lookup_insert_eq. simpl. rewrite Hmro. simpl.
  rewrite !lookup_insert_eq. simpl. split_and!; try done.
  - apply lookup_delete_eq.
  - intros key Hkey. by apply lookup_delete_ne.
Qed.

Lemma facade_after_derivation_witness :
  model_dump (classes Examples.st_Person) (User "Person") [] {["strict" := VBool false]}
  = inr (SchemaCall 1 [] (VBool false) (delete "strict" {["strict" := VBool false]})).
Proof.
  destruct (facade_after_derivation Examples.cfg "Person" Examples.st0 Examples.st_Person
              Examples.Person [Object] [] {["strict" := VBool false]}) as [H _].
  - vm_compute. reflexivity.
  - vm_compute. reflexivity.
  - reflexivity.
  - exact H.
Defined.

(** ** The attributes of a constructed instance *)




















